(** * narwhal: the SQL mapping layer of [narwhal/sql.py]

    A shallow embedding of the query builder ([Query]) and of the store
    ([SQL]) with its identity cache, and the properties of the written
    specification stated over that embedding. *)

From Stdlib Require Import QArith Ascii String.
From stdpp Require Import gmap strings list fin_maps.

Local Open Scope Z_scope.

(** ** Python values bound to, and read back from, SQL statements *)

(** The scalars the store handles.  [VCustom] is an instance of a user type
    without a [__sql_adapter__] method; [VAdaptable] is one that has the
    method, [adapted] being what the method returns. *)
Inductive value : Type :=
  | VNone
  | VBool (b : bool)
  | VInt (z : Z)
  | VReal (q : Q)
  | VText (s : string)
  | VDate (y m d : Z)
  | VTimestamp (y m d hh mm ss : Z)
  | VCustom (repr : string)
  | VAdaptable (repr : string) (adapted : value).

#[global] Instance Q_eq_dec : EqDecision Q.
Proof. solve_decision. Defined.

#[global] Instance value_eq_dec : EqDecision value.
Proof. solve_decision. Defined.

(** The exceptions the modelled code can raise. *)
Inductive exn : Type :=
  | IndexError
  | KeyError
  | TypeError
  | OperationalError
  | ProgrammingError
  | AttributeError
  | IntegrityError
  | CollaboratorError   (* raised by a child-list helper *)
  | BadAddress.         (* no instance at this address: not reachable from Python *)

Inductive result (A : Type) : Type :=
  | Ok (a : A)
  | Raise (e : exn).
Arguments Ok {A} a.
Arguments Raise {A} e.

(** ** Query: the predicate and ordering builder *)

Module Query.

(** What the builder's functions take and return.  A predicate fragment is
    the Python pair [(text, values)]; the ordering lambdas return a plain
    [str]; [StrPair] is the pair of two [str] that [Not] builds from a
    plain [str]. *)
Inductive expr : Type :=
  | Frag (text : string) (vals : list value)
  | Raw (s : string)
  | StrPair (text : string) (second : string).

Definition Equals (var_name : string) (val : value) : expr :=
  Frag (var_name +:+ " = ?") [val].

Definition NotEquals (var_name : string) (val : value) : expr :=
  Frag (var_name +:+ " != ?") [val].

Definition LessThan (var_name : string) (val : value) : expr :=
  Frag (var_name +:+ " < ?") [val].

Definition LessThanEquals (var_name : string) (val : value) : expr :=
  Frag (var_name +:+ " <= ?") [val].

Definition GreaterThan (var_name : string) (val : value) : expr :=
  Frag (var_name +:+ " > ?") [val].

Definition GreaterThanEquals (var_name : string) (val : value) : expr :=
  Frag (var_name +:+ " >= ?") [val].

Definition Between (var_name : string) (val1 val2 : value) : expr :=
  Frag (var_name +:+ " between ? and ?") [val1; val2].

Definition Like (var_name : string) (pattern : value) : expr :=
  Frag (var_name +:+ " like ?") [pattern].

(** [expr[0]], rendered inside an f-string: the text of a pair, the first
    character of a [str]. *)
Definition item0 (e : expr) : result string :=
  match e with
  | Frag text _ => Ok text
  | StrPair text _ => Ok text
  | Raw EmptyString => Raise IndexError
  | Raw (String c _) => Ok (String c EmptyString)
  end.

(** [expr[1]]: the value tuple of a pair, the second character of a
    [str]. *)
Inductive item1_result : Type :=
  | Tuple1 (vals : list value)
  | Str1 (s : string)
  | NoItem1.

Definition item1 (e : expr) : item1_result :=
  match e with
  | Frag _ vals => Tuple1 vals
  | StrPair _ second => Str1 second
  | Raw (String _ (String c _)) => Str1 (String c EmptyString)
  | Raw _ => NoItem1
  end.

(** [val_tup += expr[1]]: a tuple is extended by a tuple only. *)
Definition extend (val_tup : list value) (e : expr) : result (list value) :=
  match item1 e with
  | Tuple1 vals => Ok (val_tup ++ vals)
  | Str1 _ => Raise TypeError
  | NoItem1 => Raise IndexError
  end.

Definition Not (e : expr) : result expr :=
  match item0 e with
  | Raise x => Raise x
  | Ok text =>
      match item1 e with
      | Tuple1 vals => Ok (Frag ("not (" +:+ text +:+ ")") vals)
      | Str1 s => Ok (StrPair ("not (" +:+ text +:+ ")") s)
      | NoItem1 => Raise IndexError
      end
  end.

(** The body of the [for i in range(expr_range)] loop of [ChainExprs],
    run over the indices [idxs]. *)
Fixpoint chain_loop (exprs : list expr) (chain_str : string)
    (idxs : list nat) (query_str : string) (val_tup : list value)
    : result (string * list value) :=
  match idxs with
  | [] => Ok (query_str, val_tup)
  | i :: idxs' =>
      match exprs !! i with
      | None => Raise IndexError
      | Some e =>
          match item0 e with
          | Raise x => Raise x
          | Ok text =>
              match extend val_tup e with
              | Raise x => Raise x
              | Ok val_tup' =>
                  chain_loop exprs chain_str idxs'
                    (query_str +:+ "(" +:+ text +:+ ")" +:+ chain_str) val_tup'
              end
          end
      end
  end.

Definition ChainExprs (exprs : list expr) (chain_str : string) : result expr :=
  let expr_range := (length exprs - 1)%nat in
  match chain_loop exprs chain_str (seq 0 expr_range) "" [] with
  | Raise x => Raise x
  | Ok (query_str, val_tup) =>
      (* exprs[expr_range].  On the empty tuple expr_range is -1 and the
         index is out of range; here the subtraction stops at 0, where
         the empty tuple has no element either. *)
      match exprs !! expr_range with
      | None => Raise IndexError
      | Some e =>
          match item0 e with
          | Raise x => Raise x
          | Ok text =>
              match extend val_tup e with
              | Raise x => Raise x
              | Ok val_tup' =>
                  Ok (Frag (query_str +:+ "(" +:+ text +:+ ")") val_tup')
              end
          end
      end
  end.

Definition And (exprs : list expr) : result expr := ChainExprs exprs " and ".

Definition Or (exprs : list expr) : result expr := ChainExprs exprs " or ".

Definition OrderAscending (v : string) : expr := Raw (v +:+ " asc").

Definition OrderDescending (v : string) : expr := Raw (v +:+ " desc").

Definition OrderChain (exprs : list expr) : result expr := ChainExprs exprs ", ".

(** The text the specification describes: every sub-fragment in
    parentheses, the connective between neighbours. *)
Fixpoint joined (chain_str : string) (texts : list string) : string :=
  match texts with
  | [] => ""
  | [t] => "(" +:+ t +:+ ")"
  | t :: ts => "(" +:+ t +:+ ")" +:+ chain_str +:+ joined chain_str ts
  end.

Definition frag_text (e : expr) : string :=
  match e with Frag t _ => t | Raw s => s | StrPair t _ => t end.

Definition frag_vals (e : expr) : list value :=
  match e with Frag _ v => v | _ => [] end.

(** The text the loop has built after the sub-fragments [es]. *)
Fixpoint prefix_text (chain_str : string) (es : list expr) : string :=
  match es with
  | [] => ""
  | e :: rest => "(" +:+ frag_text e +:+ ")" +:+ chain_str +:+ prefix_text chain_str rest
  end.

Definition is_frag (e : expr) : Prop :=
  match e with Frag _ _ => True | _ => False end.

End Query.

(** ** The store: entity kinds, instances, the backing engine *)

(** A registered entity kind: the attributes the store reads from a data
    class once [RegisterTables] has run, and what [data_class()] builds. *)
Record kind : Type := {
  k_name : string;                          (* __name__ *)
  k_tablename : string;                     (* __tablename__ *)
  k_sql_columns : list (string * string);   (* __sql_columns__ *)
  k_immutable : bool;                       (* __immutable__ *)
  k_annotations : list string;              (* keys of __annotations__ *)
  k_init_dict : gmap string value;          (* __dict__ of a new instance *)
  k_ref_fields : list string;               (* reference-typed fields *)
  k_list_fields : list string               (* child-list fields *)
}.

(** Modelled from the spec: the child-list helper of an entity instance,
    which is not part of [sql.py].  It supports "persist as new rows",
    "persist as updated rows" and a "mark as already persisted"
    notification.  What persisting does to other tables is outside this
    model: a call is recorded as an event, and [cl_broken] says that the
    helper raises instead. *)
Record child_list : Type := {
  cl_field : string;
  cl_from_db : bool;
  cl_broken : bool
}.

(** An entity instance: its class, its [__dict__], its reference-typed
    fields (each with the raw stored value last handed to the reference)
    and its child lists. *)
Record obj : Type := {
  o_class : kind;
  o_dict : gmap string value;
  o_refs : gmap string value;
  o_lists : list child_list
}.

(** A stored row: the integer primary key and the other column values. *)
Abbreviation row := (Z * list value)%type (only parsing).

Record table : Type := {
  t_columns : list string;
  t_rows : list row
}.

(** A fetched row ([sqlite3.Row]): addressable by column name. *)
Record sqlrow : Type := {
  r_dbid : Z;
  r_fields : list (string * value)
}.

Inductive event : Type :=
  | EvExecute (cmd : string) (params : list value)
  | EvExecuteMany (cmd : string) (rows : list (list value))
  | EvCommit
  | EvPrint (msg : string)
  | EvListAdd (item : nat) (field : string)
  | EvListUpdate (item : nat) (field : string).

(** The state the store's methods act on: the instances in memory (an
    instance is known by its address, its index in [heap]), the identity
    cache [self.cache], the tables of the backing engine, the registry
    [SQL.TYPE_DEFAULT], and the trace of what was sent to the connection or
    printed. *)
Record store : Type := {
  heap : list obj;
  cache : gmap string (gmap Z nat);
  db : gmap string table;
  type_default : gmap string value;
  log : list event
}.

Definition set_heap (h : list obj) (s : store) : store :=
  {| heap := h; cache := cache s; db := db s;
     type_default := type_default s; log := log s |}.

Definition set_cache (c : gmap string (gmap Z nat)) (s : store) : store :=
  {| heap := heap s; cache := c; db := db s;
     type_default := type_default s; log := log s |}.

Definition set_db (d : gmap string table) (s : store) : store :=
  {| heap := heap s; cache := cache s; db := d;
     type_default := type_default s; log := log s |}.

Definition add_log (e : event) (s : store) : store :=
  {| heap := heap s; cache := cache s; db := db s;
     type_default := type_default s; log := log s ++ [e] |}.

(** [SQL.TYPE_DEFAULT] as the class body seeds it. *)
Definition TYPE_DEFAULT : gmap string value :=
  <["text" := VText ""]>
  (<["integer" := VInt (-1)]>
  (<["real" := VReal 0]>
  (<["date" := VDate 1000 1 1]>
  (<["timestamp" := VTimestamp 1000 1 1 0 0 0]> ∅)))).

(** *** The backing engine

    The relational engine is an external collaborator.  Its model keeps, per
    table, the column names and the rows in insertion order, and answers the
    statements the store sends: it rejects a statement on a table that does
    not exist, a row of the wrong width, an assignment to a column the table
    does not have, a parameter list whose length differs from the number of
    [?] in the statement text, and a second row with a primary key already
    present. *)
Module Engine.

Fixpoint placeholders (cmd : string) : nat :=
  match cmd with
  | EmptyString => 0%nat
  | String c rest =>
      if Ascii.eqb c "?"%char then S (placeholders rest) else placeholders rest
  end.

Definition has_dbid (z : Z) (rows : list row) : bool :=
  existsb (fun r => Z.eqb (fst r) z) rows.

Definition select_all (table_name : string) (d : gmap string table)
    : result (list row) :=
  match d !! table_name with
  | None => Raise OperationalError
  | Some t => Ok (t_rows t)
  end.

(** Preparing [insert into T values (?, ..., ?)]: the table exists and
    has as many columns as the statement has values. *)
Definition prepare_insert (cmd table_name : string) (d : gmap string table)
    : result table :=
  match d !! table_name with
  | None => Raise OperationalError
  | Some t =>
      if Nat.eqb (placeholders cmd) (S (length (t_columns t)))
      then Ok t else Raise OperationalError
  end.

Definition insert (cmd table_name : string) (params : list value)
    (d : gmap string table) : result (gmap string table) :=
  match prepare_insert cmd table_name d with
  | Raise x => Raise x
  | Ok t =>
      if negb (Nat.eqb (placeholders cmd) (length params))
      then Raise ProgrammingError
      else
        match params with
        | VInt z :: vals =>
            if has_dbid z (t_rows t) then Raise IntegrityError
            else Ok (<[table_name :=
                       {| t_columns := t_columns t;
                          t_rows := t_rows t ++ [(z, vals)] |}]> d)
        | _ => Raise IntegrityError
        end
  end.

(** [executemany]: the rows one after the other; the rows before a
    failing one stay inserted. *)
Fixpoint insert_many (cmd table_name : string) (rows : list (list value))
    (d : gmap string table) : result unit * gmap string table :=
  match rows with
  | [] =>
      match prepare_insert cmd table_name d with
      | Raise x => (Raise x, d)
      | Ok _ => (Ok tt, d)
      end
  | params :: rest =>
      match insert cmd table_name params d with
      | Raise x => (Raise x, d)
      | Ok d' => insert_many cmd table_name rest d'
      end
  end.

(** The position of each assigned column in the table's column list. *)
Fixpoint index_of (name : string) (names : list string) : option nat :=
  match names with
  | [] => None
  | n :: rest =>
      if String.eqb n name then Some 0%nat
      else option_map S (index_of name rest)
  end.

Fixpoint assign (t_cols : list string) (set_cols : list string)
    (vals : list value) (old : list value) : option (list value) :=
  match set_cols, vals with
  | [], _ => Some old
  | c :: cs, v :: vs =>
      match index_of c t_cols with
      | None => None
      | Some i => assign t_cols cs vs (<[i := v]> old)
      end
  | _ :: _, [] => None
  end.

(** Preparing [update T set c1 = ?, ..., cn = ? where dbid = ?]: the
    table exists and has the assigned columns. *)
Definition prepare_update (table_name : string) (set_cols : list string)
    (d : gmap string table) : result table :=
  match d !! table_name with
  | None => Raise OperationalError
  | Some t =>
      if forallb (fun c => bool_decide (c ∈ t_columns t)) set_cols
      then Ok t else Raise OperationalError
  end.

(** What the statement does to one row: the parameters are the new column
    values followed by the key, and only the row with that key changes. *)
Definition update_row (t_cols set_cols : list string) (params : list value)
    (r : row) : row :=
  let vals := take (length set_cols) params in
  let key := params !! length set_cols in
  if bool_decide (key = Some (VInt (fst r)))
  then match assign t_cols set_cols vals (snd r) with
       | Some new => (fst r, new)
       | None => r
       end
  else r.

Definition update (cmd table_name : string) (set_cols : list string)
    (params : list value) (d : gmap string table)
    : result (gmap string table) :=
  match prepare_update table_name set_cols d with
  | Raise x => Raise x
  | Ok t =>
      if negb (Nat.eqb (placeholders cmd) (length params))
      then Raise ProgrammingError
      else
        Ok (<[table_name :=
               {| t_columns := t_columns t;
                  t_rows := map (update_row (t_columns t) set_cols params)
                                (t_rows t) |}]> d)
  end.

Fixpoint update_many (cmd table_name : string) (set_cols : list string)
    (rows : list (list value)) (d : gmap string table)
    : result unit * gmap string table :=
  match rows with
  | [] =>
      match prepare_update table_name set_cols d with
      | Raise x => (Raise x, d)
      | Ok _ => (Ok tt, d)
      end
  | params :: rest =>
      match update cmd table_name set_cols params d with
      | Raise x => (Raise x, d)
      | Ok d' => update_many cmd table_name set_cols rest d'
      end
  end.

Definition fetched (t : table) (r : row) : sqlrow :=
  {| r_dbid := fst r; r_fields := zip (t_columns t) (snd r) |}.

(** [select * from T where dbid = ?] *)
Definition select_dbid (table_name : string) (index : value)
    (d : gmap string table) : result (list sqlrow) :=
  match d !! table_name with
  | None => Raise OperationalError
  | Some t =>
      Ok (map (fetched t)
            (filter (fun r => index = VInt (fst r)) (t_rows t)))
  end.

Definition delete_all (table_name : string) (d : gmap string table)
    : result (gmap string table) :=
  match d !! table_name with
  | None => Raise OperationalError
  | Some t => Ok (<[table_name := {| t_columns := t_columns t; t_rows := [] |}]> d)
  end.

Definition create (table_name : string) (columns : list string)
    (d : gmap string table) : result (gmap string table) :=
  match d !! table_name with
  | Some _ => Raise OperationalError
  | None => Ok (<[table_name := {| t_columns := columns; t_rows := [] |}]> d)
  end.

End Engine.

(** *** Methods as state transformers

    A method maps a store to its outcome and the store it leaves behind.  An
    exception does not undo what the method did before raising. *)
Definition M (A : Type) : Type := store → result A * store.

Definition ret {A : Type} (a : A) : M A := fun s => (Ok a, s).

Definition raise {A : Type} (x : exn) : M A := fun s => (Raise x, s).

Definition bind {A B : Type} (m : M A) (k : A → M B) : M B :=
  fun s =>
    match m s with
    | (Ok a, s') => k a s'
    | (Raise x, s') => (Raise x, s')
    end.

Notation "'let!' x ':=' m 'in' k" := (bind m (fun x => k))
  (at level 10, x name, m at level 100, k at level 200).
Notation "m '>>>' k" := (bind m (fun _ => k))
  (at level 90, right associativity).

Definition lift {A : Type} (r : result A) : M A := fun s => (r, s).

Fixpoint for_each {A : Type} (body : A → M unit) (l : list A) : M unit :=
  match l with
  | [] => ret tt
  | x :: rest => body x >>> for_each body rest
  end.

Definition emit (e : event) : M unit := fun s => (Ok tt, add_log e s).

Definition get_obj (item : nat) : M obj :=
  fun s =>
    match heap s !! item with
    | Some o => (Ok o, s)
    | None => (Raise BadAddress, s)
    end.

Definition with_dict (d : gmap string value) (o : obj) : obj :=
  {| o_class := o_class o; o_dict := d; o_refs := o_refs o; o_lists := o_lists o |}.

Definition with_refs (r : gmap string value) (o : obj) : obj :=
  {| o_class := o_class o; o_dict := o_dict o; o_refs := r; o_lists := o_lists o |}.

Definition with_lists (l : list child_list) (o : obj) : obj :=
  {| o_class := o_class o; o_dict := o_dict o; o_refs := o_refs o; o_lists := l |}.

(** [item.name = v] *)
Definition setattr (item : nat) (name : string) (v : value) : M unit :=
  fun s =>
    match heap s !! item with
    | Some o => (Ok tt, set_heap (<[item := with_dict (<[name := v]> (o_dict o)) o]> (heap s)) s)
    | None => (Raise BadAddress, s)
    end.

(** [item.name] *)
Definition getattr (item : nat) (name : string) : M value :=
  let! o := get_obj item in
  match o_dict o !! name with
  | Some v => ret v
  | None => raise AttributeError
  end.

(** [self.cache[dc_name][dbid] = item] *)
Definition cache_store (dc_name : string) (dbid : Z) (item : nat) : M unit :=
  fun s =>
    match cache s !! dc_name with
    | Some bucket => (Ok tt, set_cache (<[dc_name := <[dbid := item]> bucket]> (cache s)) s)
    | None => (Raise KeyError, s)
    end.

(** [v != z] for a Python value [v] and an int [z]. *)
Definition py_ne_int (v : value) (z : Z) : bool :=
  match v with
  | VInt n => negb (Z.eqb n z)
  | VBool b => negb (Z.eqb (if b then 1 else 0) z)
  | VReal q => negb (Qeq_bool q (inject_Z z))
  | _ => true
  end.

(** ["dbid" in item.__dict__ and item.dbid != -1] *)
Definition has_valid_dbid (idict : gmap string value) : bool :=
  match idict !! "dbid" with
  | Some v => py_ne_int v (-1)
  | None => false
  end.

(** [var_value.__sql_adapter__()] when the value has the method. *)
Definition adapted_value (v : value) : value :=
  match v with
  | VAdaptable _ a => a
  | _ => v
  end.

(** The value bound for one column: the instance's field, through its
    adapter, or [SQL.TYPE_DEFAULT[var_type]]. *)
Definition column_value (idict : gmap string value)
    (defaults : gmap string value) (column : string * string) : result value :=
  match idict !! fst column with
  | Some v => Ok (adapted_value v)
  | None =>
      match defaults !! snd column with
      | Some d => Ok d
      | None => Raise KeyError
      end
  end.

Fixpoint column_values (idict : gmap string value)
    (defaults : gmap string value) (columns : list (string * string))
    : result (list value) :=
  match columns with
  | [] => Ok []
  | c :: rest =>
      match column_value idict defaults c with
      | Raise x => Raise x
      | Ok v =>
          match column_values idict defaults rest with
          | Raise x => Raise x
          | Ok vs => Ok (v :: vs)
          end
      end
  end.

Fixpoint repeat_string (s : string) (n : nat) : string :=
  match n with
  | O => ""
  | S n' => s +:+ repeat_string s n'
  end.

(** The elements at the indices [range(len(l) - 1)], and the element at
    index [len(l) - 1]; nothing for the empty list, where that index is out
    of range. *)
Fixpoint split_last {A : Type} (l : list A) : option (list A * A) :=
  match l with
  | [] => None
  | [x] => Some ([], x)
  | x :: rest =>
      match split_last rest with
      | Some (init, last) => Some (x :: init, last)
      | None => None
      end
  end.

(** [item.__get_lists__()] with one of the helper's two persist calls on
    each list. *)
Definition list_add_to_db (item : nat) (l : child_list) : M unit :=
  if cl_broken l then raise CollaboratorError
  else emit (EvListAdd item (cl_field l)).

Definition list_update_to_db (item : nat) (l : child_list) : M unit :=
  if cl_broken l then raise CollaboratorError
  else emit (EvListUpdate item (cl_field l)).

Definition add_lists (item : nat) : M unit :=
  let! o := get_obj item in
  for_each (list_add_to_db item) (o_lists o).

Definition update_lists (item : nat) : M unit :=
  let! o := get_obj item in
  for_each (list_update_to_db item) (o_lists o).

(** [self.connection.commit()] *)
Definition connection_commit : M unit := emit EvCommit.

Definition commit_if (commit : bool) : M unit :=
  if commit then connection_commit else ret tt.

Definition execute_insert (cmd table_name : string) (params : list value) : M unit :=
  fun s =>
    let s1 := add_log (EvExecute cmd params) s in
    match Engine.insert cmd table_name params (db s1) with
    | Ok d => (Ok tt, set_db d s1)
    | Raise x => (Raise x, s1)
    end.

Definition executemany_insert (cmd table_name : string)
    (rows : list (list value)) : M unit :=
  fun s =>
    let s1 := add_log (EvExecuteMany cmd rows) s in
    let (r, d) := Engine.insert_many cmd table_name rows (db s1) in
    (r, set_db d s1).

Definition execute_update (cmd table_name : string) (set_cols : list string)
    (params : list value) : M unit :=
  fun s =>
    let s1 := add_log (EvExecute cmd params) s in
    match Engine.update cmd table_name set_cols params (db s1) with
    | Ok d => (Ok tt, set_db d s1)
    | Raise x => (Raise x, s1)
    end.

Definition executemany_update (cmd table_name : string)
    (set_cols : list string) (rows : list (list value)) : M unit :=
  fun s =>
    let s1 := add_log (EvExecuteMany cmd rows) s in
    let (r, d) := Engine.update_many cmd table_name set_cols rows (db s1) in
    (r, set_db d s1).

(** ** SQL: the store's methods *)

Module SQL.

Definition TableLength (data_class : kind) : M nat :=
  let table_name := k_tablename data_class in
  let cmd := "select * from " +:+ table_name in
  emit (EvExecute cmd []) >>>
  fun s =>
    match Engine.select_all table_name (db s) with
    | Ok rows => (Ok (length rows), s)
    | Raise x => (Raise x, s)
    end.

Definition Commit : M unit := connection_commit.

Definition insert_cmd (table_name : string)
    (sql_columns : list (string * string)) : string :=
  "insert into " +:+ table_name +:+ " values (?, "
    +:+ repeat_string "?, " (length sql_columns - 1) +:+ "?)".

(** The part of [Add] after its guard on an already valid [dbid]. *)
Definition Add_fresh (item : nat) (commit : bool) : M unit :=
  let! o := get_obj item in
  let data_class := o_class o in
  let table_name := k_tablename data_class in
  let sql_columns := k_sql_columns data_class in
  (* dbid *)
  let! n := TableLength data_class in
  setattr item "dbid" (VInt (Z.of_nat n)) >>>
  (* cache the item *)
  cache_store (k_name data_class) (Z.of_nat n) item >>>
  let! dbid := getattr item "dbid" in
  (* all other attributes *)
  let! o' := get_obj item in
  let! vals := (fun s => (column_values (o_dict o') (type_default s) sql_columns, s)) in
  let attr_list := dbid :: vals in
  (* save them to the table *)
  execute_insert (insert_cmd table_name sql_columns) table_name attr_list >>>
  (* finally, add lists *)
  add_lists item >>>
  commit_if commit.

Definition update_cmd (table_name : string) (init : list (string * string))
    (last : string * string) : string :=
  "update " +:+ table_name +:+ " set "
    +:+ String.concat "" (map (fun c => fst c +:+ " = ?, ") init)
    +:+ fst last +:+ " = ? where dbid = ?".

Definition immutable_warning (data_class : kind) : string :=
  "WARNING: Can't update immutable type " +:+ k_name data_class +:+ "!".

(** [Update].  Its last branch is [self.Add(item, commit=commit)], taken
    when the instance has no ["dbid"] attribute; [Add]'s guard is false on
    such an instance, so the call runs [Add_fresh]. *)
Definition Update (item : nat) (force_update commit : bool) : M unit :=
  let! o := get_obj item in
  let data_class := o_class o in
  let table_name := k_tablename data_class in
  let sql_columns := k_sql_columns data_class in
  let item_dict := o_dict o in
  match item_dict !! "dbid" with
  | Some dbid =>
      if k_immutable data_class && negb force_update
      then emit (EvPrint (immutable_warning data_class))
      else
        let! defaults := (fun s => (Ok (type_default s), s)) in
        match split_last sql_columns with
        | None =>
            (* sql_columns[col_range] on the empty list *)
            raise IndexError
        | Some (init, last) =>
            let! vals_init := lift (column_values item_dict defaults init) in
            let! val_last := lift (column_value item_dict defaults last) in
            let cmd := update_cmd table_name init last in
            let update_list := vals_init ++ [val_last] ++ [dbid] in
            (* update the db *)
            execute_update cmd table_name (map fst sql_columns) update_list >>>
            (* finally, update lists *)
            update_lists item >>>
            commit_if commit
        end
  | None => Add_fresh item commit
  end.

Definition Add (item : nat) (commit : bool) : M unit :=
  let! o := get_obj item in
  if has_valid_dbid (o_dict o)
  then Update item false commit
  else Add_fresh item commit.

(** The first loop of [AddList]: items with a valid key go to [Update],
    the others are collected in [item_list].  [hasattr(item, "dbid")] is
    read on the instance's own attributes, as [Add] reads it. *)
Fixpoint AddList_split (i_list : list nat) (commit : bool)
    (item_list : list nat) : M (list nat) :=
  match i_list with
  | [] => ret item_list
  | item :: rest =>
      let! o := get_obj item in
      if has_valid_dbid (o_dict o)
      then Update item false commit >>> AddList_split rest commit item_list
      else AddList_split rest commit (item_list ++ [item])
  end.

(** The second loop of [AddList], from index [i] on: key, cache, value
    row. *)
Fixpoint AddList_entries (data_class : kind) (items : list nat) (i : nat)
    (new_entries : list (list value)) : M (list (list value)) :=
  match items with
  | [] => ret new_entries
  | item :: rest =>
      setattr item "dbid" (VInt (Z.of_nat i)) >>>
      cache_store (k_name data_class) (Z.of_nat i) item >>>
      let! dbid := getattr item "dbid" in
      let! o := get_obj item in
      let! vals := (fun s => (column_values (o_dict o) (type_default s)
                                (k_sql_columns data_class), s)) in
      AddList_entries data_class rest (S i) (new_entries ++ [dbid :: vals])
  end.

Definition AddList (i_list : list nat) (commit : bool) : M unit :=
  match i_list with
  | [] => ret tt
  | first :: _ =>
      let! o0 := get_obj first in
      let data_class := o_class o0 in
      let table_name := k_tablename data_class in
      let sql_columns := k_sql_columns data_class in
      let! item_list := AddList_split i_list commit [] in
      (* create the new table entries *)
      let! new_entries := AddList_entries data_class item_list 0 [] in
      (* save them to the table *)
      executemany_insert (insert_cmd table_name sql_columns) table_name new_entries >>>
      (* finally, add lists for each object *)
      for_each add_lists item_list >>>
      commit_if commit
  end.

(** The body of the [for item in item_list] loop of [UpdateList].  The
    calls that follow the [if]/[else] are inside the loop, as they are
    indented in the source. *)
Fixpoint UpdateList_loop (data_class : kind) (cmd : string)
    (init : list (string * string)) (last : string * string)
    (commit : bool) (items : list nat)
    (arg_list : list (list value)) (i_list add_list : list nat) : M unit :=
  match items with
  | [] => ret tt
  | item :: rest =>
      let! o := get_obj item in
      let item_dict := o_dict o in
      let! acc :=
        match item_dict !! "dbid" with
        | Some dbid =>
            let! defaults := (fun s => (Ok (type_default s), s)) in
            let! vals_init := lift (column_values item_dict defaults init) in
            let! val_last := lift (column_value item_dict defaults last) in
            let update_list := vals_init ++ [val_last] ++ [dbid] in
            ret (arg_list ++ [update_list], i_list ++ [item], add_list)
        | None => ret (arg_list, i_list, add_list ++ [item])
        end in
      let arg_list' := fst (fst acc) in
      let i_list' := snd (fst acc) in
      let add_list' := snd acc in
      (* add to db any items that weren't in it *)
      AddList add_list' commit >>>
      (* update the db *)
      executemany_update cmd (k_tablename data_class)
        (map fst (k_sql_columns data_class)) arg_list' >>>
      (* finally, update lists *)
      for_each update_lists i_list' >>>
      commit_if commit >>>
      UpdateList_loop data_class cmd init last commit rest
        arg_list' i_list' add_list'
  end.

Definition UpdateList (item_list : list nat) (force_update commit : bool) : M unit :=
  match item_list with
  | [] => ret tt
  | first :: _ =>
      let! o0 := get_obj first in
      let data_class := o_class o0 in
      let table_name := k_tablename data_class in
      let sql_columns := k_sql_columns data_class in
      if k_immutable data_class && negb force_update
      then emit (EvPrint (immutable_warning data_class))
      else
        (* build SQL command from first item *)
        match split_last sql_columns with
        | None => raise IndexError
        | Some (init, last) =>
            let cmd := update_cmd table_name init last in
            (* insert actual values to update *)
            UpdateList_loop data_class cmd init last commit item_list [] [] []
        end
  end.

(** What the engine does with text the store passes through unread. *)
Record query_engine : Type := {
  (* the rows a [where] clause with its bound values keeps; [None] when
     the engine rejects the clause *)
  where_clause : string → list value → option (sqlrow → bool);
  (* the arrangement an [order by] clause produces *)
  order_by : string → option (list sqlrow → list sqlrow);
  (* the arrangement [order by random()] produces *)
  random_order : list sqlrow → list sqlrow;
  random_order_perm : ∀ l, Permutation (random_order l) l
}.

(** [data_class()] *)
Definition new_instance (data_class : kind) : obj :=
  {| o_class := data_class;
     o_dict := k_init_dict data_class;
     o_refs := list_to_map (map (fun f => (f, VNone)) (k_ref_fields data_class));
     o_lists := map (fun f => {| cl_field := f; cl_from_db := false; cl_broken := false |})
                    (k_list_fields data_class) |}.

(** Modelled from the spec: the reference helper of an entity instance,
    which is not part of [sql.py].  For a reference-typed field the
    instance gives "a lookup returning an optional reference object that
    accepts a raw stored value for conversion": [get_reference] is that
    lookup ([item.__get_reference__(column_name)], the value last handed
    over standing for the reference object), and [sql_converter] is
    [ref.__sql_converter__(raw)]. *)
Definition get_reference (o : obj) (column_name : string) : option value :=
  o_refs o !! column_name.

Definition sql_converter (o : obj) (column_name : string) (raw : value) : obj :=
  with_refs (<[column_name := raw]> (o_refs o)) o.

(** One turn of the loop of [CopyRowToData] over [row.keys()]. *)
Definition copy_column (data_class : kind) (rw : sqlrow) (o : obj)
    (column : string * value) : obj :=
  let column_name := fst column in
  if String.eqb column_name "dbid"
  then with_dict (<["dbid" := VInt (r_dbid rw)]> (o_dict o)) o
  else
    if bool_decide (column_name ∈ k_annotations data_class)
       && bool_decide (is_Some (get_reference o column_name))
    then sql_converter o column_name (snd column)
    else (* setattr(item, column_name, row[column_name]) *)
      with_dict (<[column_name := snd column]> (o_dict o)) o.

(** [item.__mark_lists_from_db__()] *)
Definition mark_lists_from_db (o : obj) : obj :=
  with_lists (map (fun l => {| cl_field := cl_field l; cl_from_db := true;
                              cl_broken := cl_broken l |}) (o_lists o)) o.

Definition copy_row (data_class : kind) (rw : sqlrow) (o : obj) : obj :=
  mark_lists_from_db
    (fold_left (copy_column data_class rw)
       (("dbid", VInt (r_dbid rw)) :: r_fields rw) o).

Definition CopyRowToData (data_class : kind) (rw : sqlrow)
    (existing_item : option nat) : M nat :=
  match existing_item with
  | None =>
      fun s =>
        (Ok (length (heap s)),
         set_heap (heap s ++ [copy_row data_class rw (new_instance data_class)]) s)
  | Some item =>
      fun s =>
        match heap s !! item with
        | Some o => (Ok item, set_heap (<[item := copy_row data_class rw o]> (heap s)) s)
        | None => (Raise BadAddress, s)
        end
  end.

Definition ProcessRow (data_class : kind) (rw : sqlrow) : M nat :=
  let dbid := r_dbid rw in
  let dc_name := k_name data_class in
  let! bucket := (fun s => match cache s !! dc_name with
                           | Some b => (Ok b, s)
                           | None => (Raise KeyError, s)
                           end) in
  match bucket !! dbid with
  | Some item =>
      (* in cache *)
      CopyRowToData data_class rw (Some item)
  | None =>
      (* not in cache already *)
      let! item := CopyRowToData data_class rw None in
      cache_store dc_name dbid item >>>
      ret item
  end.

Fixpoint process_rows (data_class : kind) (results : list sqlrow)
    (search_list : list nat) : M (list nat) :=
  match results with
  | [] => ret search_list
  | rw :: rest =>
      let! item := ProcessRow data_class rw in
      process_rows data_class rest (search_list ++ [item])
  end.

Definition select_cmd (table_name : string) (args : string * list value)
    (orderby : string) : string :=
  let cmd := "select * from " +:+ table_name +:+ " where " +:+ fst args in
  if String.eqb orderby "" then cmd else cmd +:+ " order by " +:+ orderby.

(** [ExecuteSelect] followed by [fetchall]. *)
Definition ExecuteSelect (qe : query_engine) (table_name : string)
    (args : string * list value) (orderby : string) : M (list sqlrow) :=
  let cmd := select_cmd table_name args orderby in
  emit (EvExecute cmd (snd args)) >>>
  fun s =>
    match db s !! table_name with
    | None => (Raise OperationalError, s)
    | Some t =>
        match where_clause qe (fst args) (snd args) with
        | None => (Raise OperationalError, s)
        | Some keep =>
            let rows := List.filter keep (map (Engine.fetched t) (t_rows t)) in
            if String.eqb orderby "" then
              if Nat.eqb (Engine.placeholders cmd) (length (snd args))
              then (Ok rows, s) else (Raise ProgrammingError, s)
            else
              match order_by qe orderby with
              | None => (Raise OperationalError, s)
              | Some arrange =>
                  if Nat.eqb (Engine.placeholders cmd) (length (snd args))
                  then (Ok (arrange rows), s) else (Raise ProgrammingError, s)
              end
        end
    end.

Definition Select (qe : query_engine) (data_class : kind)
    (args : string * list value) (orderby : string) : M (list nat) :=
  let table_name := k_tablename data_class in
  let! results := ExecuteSelect qe table_name args orderby in
  process_rows data_class results [].

(** [None] is Python's [None]. *)
Definition SelectOne (qe : query_engine) (data_class : kind)
    (args : string * list value) : M (option nat) :=
  let table_name := k_tablename data_class in
  let! results := ExecuteSelect qe table_name args "" in
  match results with
  | [] => ret None
  | result :: _ =>
      let! item := ProcessRow data_class result in
      ret (Some item)
  end.

Definition SelectAtIndex (data_class : kind) (index : Z) : M (option nat) :=
  let table_name := k_tablename data_class in
  let cmd := "select * from " +:+ table_name +:+ " where dbid = ?" in
  emit (EvExecute cmd [VInt index]) >>>
  let! results := (fun s => (Engine.select_dbid table_name (VInt index) (db s), s)) in
  match results with
  | [] => ret None
  | result :: _ =>
      let! item := ProcessRow data_class result in
      ret (Some item)
  end.

(** The decimal digits of a natural number, as [str] renders it. *)
Definition digit (n : nat) : string :=
  String (ascii_of_nat (48 + n mod 10)) EmptyString.

Fixpoint decimal_fuel (fuel n : nat) (acc : string) : string :=
  match fuel with
  | O => acc
  | S fuel' =>
      if Nat.ltb n 10 then digit n +:+ acc
      else decimal_fuel fuel' (n / 10) (digit n +:+ acc)
  end.

Definition decimal (n : nat) : string := decimal_fuel (S n) n "".

Definition RandomEntries (qe : query_engine) (data_class : kind) (num : Z)
    : M (list nat) :=
  let table_name := k_tablename data_class in
  let limit := Z.to_nat (Z.max 1 num) in
  let cmd := "select * from " +:+ table_name +:+ " order by random() limit "
               +:+ decimal limit in
  emit (EvExecute cmd []) >>>
  let! results := (fun s =>
    match db s !! table_name with
    | None => (Raise OperationalError, s)
    | Some t =>
        (Ok (take limit (random_order qe (map (Engine.fetched t) (t_rows t)))), s)
    end) in
  process_rows data_class results [].

Definition create_cmd (table_name : string) (init : list (string * string))
    (last : string * string) : string :=
  "create table " +:+ table_name +:+ " ( dbid integer primary key, "
    +:+ String.concat "" (map (fun c => fst c +:+ " " +:+ snd c +:+ ", ") init)
    +:+ fst last +:+ " " +:+ snd last +:+ ")".

Definition CreateTable (data_class : kind) : M unit :=
  let sql_columns := k_sql_columns data_class in
  let table_name := k_tablename data_class in
  match split_last sql_columns with
  | None => raise IndexError
  | Some (init, last) =>
      emit (EvExecute (create_cmd table_name init last) []) >>>
      (fun s =>
         match Engine.create table_name (map fst sql_columns) (db s) with
         | Ok d => (Ok tt, set_db d s)
         | Raise x => (Raise x, s)
         end) >>>
      connection_commit
  end.

(** [CreateTables], over the kinds [RegisterTables] stored in
    [self.tables]. *)
Definition CreateTables (tables : list kind) : M unit :=
  for_each (fun data_class =>
              if Nat.ltb 0 (length (k_sql_columns data_class))
              then CreateTable data_class else ret tt) tables.

Definition Clear (data_class : kind) : M unit :=
  let table_name := k_tablename data_class in
  let cmd := "delete from " +:+ table_name in
  emit (EvExecute cmd []) >>>
  (fun s =>
     match Engine.delete_all table_name (db s) with
     | Ok d => (Ok tt, set_db d s)
     | Raise x => (Raise x, s)
     end) >>>
  connection_commit >>>
  (* clear our cache *)
  fun s => (Ok tt, set_cache (<[k_name data_class := ∅]> (cache s)) s).

End SQL.


(** ** States the store runs in *)

(** A kind as [CreateTables] accepts it: at least one derived column, and no
    [?] in the names spliced into statement text. *)
Record kind_wf (dc : kind) : Prop := {
  wf_columns : k_sql_columns dc ≠ [];
  wf_table_name : Engine.placeholders (k_tablename dc) = 0%nat;
  wf_column_names :
    Forall (fun c => Engine.placeholders (fst c) = 0%nat) (k_sql_columns dc)
}.










(** A method that leaves the instances and the identity cache as they
    are, whatever its outcome. *)
Definition keeps_memory {A : Type} (m : M A) : Prop :=
  ∀ s r s', m s = (r, s') → heap s' = heap s ∧ cache s' = cache s.







(** The kind's bucket exists and every address in it is an instance in
    memory. *)
Definition bucket_sound (st : store) (dc_name : string) (bucket : gmap Z nat) : Prop :=
  cache st !! dc_name = Some bucket
  ∧ ∀ z a, bucket !! z = Some a → (a < length (heap st))%nat.

(** What the engine answers to the statement of [ExecuteSelect] on a table;
    [None] when it rejects the [where] or the [order by] text. *)
Definition selected_rows (qe : SQL.query_engine) (t : table)
    (args : string * list value) (orderby : string) : option (list sqlrow) :=
  match SQL.where_clause qe (fst args) (snd args) with
  | None => None
  | Some keep =>
      let rows := List.filter keep (map (Engine.fetched t) (t_rows t)) in
      if String.eqb orderby "" then Some rows
      else match SQL.order_by qe orderby with
           | None => None
           | Some arrange => Some (arrange rows)
           end
  end.

(** A column of a fetched row that [CopyRowToData] hands to a reference
    instead of assigning it. *)
Definition is_reference_column (dc : kind) (o : obj) (column_name : string) : Prop :=
  column_name ∈ k_annotations dc ∧ is_Some (o_refs o !! column_name).

(** ** Sample kinds, instances and stores *)

Module Sample.

(** A mutable kind with two derived columns and one child list. *)
Definition person : kind :=
  {| k_name := "Person";
     k_tablename := "person_table";
     k_sql_columns := [("name", "text"); ("age", "integer")];
     k_immutable := false;
     k_annotations := ["name"; "age"; "pets"];
     k_init_dict := <["dbid" := VInt (-1)]> ∅;
     k_ref_fields := [];
     k_list_fields := ["pets"] |}.

(** An immutable kind. *)
Definition medal : kind :=
  {| k_name := "Medal";
     k_tablename := "medal_table";
     k_sql_columns := [("title", "text")];
     k_immutable := true;
     k_annotations := ["title"];
     k_init_dict := ∅;
     k_ref_fields := [];
     k_list_fields := [] |}.

Definition pets (broken : bool) : child_list :=
  {| cl_field := "pets"; cl_from_db := false; cl_broken := broken |}.

Definition instance (dc : kind) (fields : list (string * value))
    (lists : list child_list) : obj :=
  {| o_class := dc; o_dict := list_to_map fields; o_refs := ∅; o_lists := lists |}.

(** Instances that were never stored: without a [dbid], or with the
    sentinel. *)
Definition alice : obj := instance person [("name", VText "alice")] [pets false].
Definition bob : obj :=
  instance person [("dbid", VInt (-1)); ("name", VText "bob"); ("age", VInt 41)] [].
Definition carol : obj :=
  instance person [("name", VAdaptable "Name('carol')" (VText "carol"))] [].

(** Instances that carry a key. *)
Definition dave : obj :=
  instance person [("dbid", VInt 0); ("name", VText "dave"); ("age", VInt 30)] [].
Definition erin : obj :=
  instance person [("dbid", VInt 1); ("name", VText "erin"); ("age", VInt 52)] [].

Definition gold : obj := instance medal [("title", VText "gold")] [].
Definition silver : obj :=
  instance medal [("dbid", VInt 0); ("title", VText "silver")] [].

Definition tables (person_rows medal_rows : list row) : gmap string table :=
  <["person_table" := {| t_columns := ["name"; "age"]; t_rows := person_rows |}]>
  (<["medal_table" := {| t_columns := ["title"]; t_rows := medal_rows |}]> ∅).

Definition buckets (persons medals : gmap Z nat) : gmap string (gmap Z nat) :=
  <["Person" := persons]> (<["Medal" := medals]> ∅).

Definition state (h : list obj) (persons medals : gmap Z nat)
    (person_rows medal_rows : list row) : store :=
  {| heap := h; cache := buckets persons medals;
     db := tables person_rows medal_rows;
     type_default := TYPE_DEFAULT; log := [] |}.

(** Registered kinds, created tables, nothing stored.  In memory: three
    fresh persons, a fresh medal, and a person that still carries the key
    it had before the table was cleared. *)
Definition empty_store : store := state [alice; bob; carol; gold; dave] ∅ ∅ [] [].

(** Two stored persons, both cached, and a cached stored medal. *)
Definition stored_rows : list row :=
  [(0, [VText "dave"; VInt 29]); (1, [VText "erin"; VInt 51])].

Definition stored_store : store :=
  state [dave; erin; silver; alice; bob]
    (<[0 := 0%nat]> (<[1 := 1%nat]> ∅)) (<[0 := 2%nat]> ∅)
    stored_rows [(0, [VText "silver"])].

(** A table another writer has filled past the row count: the key [1],
    the row count, is taken. *)
Definition contended_store : store :=
  state [alice] ∅ ∅ [(1, [VText "zed"; VInt 7])] [].

(** A fresh person whose child list cannot be persisted. *)
Definition broken_list_store : store :=
  state [instance person [("name", VText "al")] [pets true]] ∅ ∅ [] [].

(** An engine that understands one clause, [age > ?], keeps the stored
    order under [order by], and answers [random()] with the stored
    order. *)
Definition field (name : string) (rw : sqlrow) : option value :=
  snd <$> List.find (fun c => String.eqb (fst c) name) (r_fields rw).

Definition engine : SQL.query_engine :=
  {| SQL.where_clause := fun text vals =>
       if String.eqb text "age > ?" then
         match vals with
         | [VInt bound] =>
             Some (fun rw => match field "age" rw with
                             | Some (VInt a) => Z.ltb bound a
                             | _ => false
                             end)
         | _ => None
         end
       else None;
     SQL.order_by := fun _ => Some (fun rows => rows);
     SQL.random_order := fun rows => rows;
     SQL.random_order_perm := fun rows => Permutation_refl rows |}.

End Sample.

(** ** Binding consistency of a fragment *)

(** A fragment the engine can bind: a [(text, values)] pair with as many
    [?] in the text as values. *)
Definition bindable (e : Query.expr) : Prop :=
  match e with
  | Query.Frag text vals => Engine.placeholders text = length vals
  | _ => False
  end.

(** An ordering fragment, as the two ordering lambdas build it. *)
Definition order_fragment (order : bool * string) : Query.expr :=
  if fst order then Query.OrderAscending (snd order)
  else Query.OrderDescending (snd order).

(** ** Schema derivation: the type registry, [RegisterList], [MakeColumns],
    [RegisterTables] *)

Module Schema.

(** [str.lower()], on the ASCII letters. *)
Definition lower_ascii (c : ascii) : ascii :=
  let n := nat_of_ascii c in
  if Nat.leb 65 n && Nat.leb n 90 then ascii_of_nat (n + 32) else c.

Fixpoint lower (s : string) : string :=
  match s with
  | EmptyString => EmptyString
  | String c rest => String (lower_ascii c) (lower rest)
  end.

(** [SQL.TYPE_TABLE] as the class body seeds it. *)
Definition TYPE_TABLE : gmap string string :=
  <["str" := "text"]>
  (<["int" := "integer"]>
  (<["bool" := "integer"]>
  (<["float" := "real"]>
  (<["date" := "date"]>
  (<["datetime" := "timestamp"]> ∅))))).

(** The two registries [RegisterTypeConversion] writes: [SQL.TYPE_TABLE]
    and [SQL.TYPE_DEFAULT].  The adapter and the converter go to the
    engine's own registry, which is not modelled. *)
Record registry : Type := {
  type_table : gmap string string;
  type_defaults : gmap string value
}.

Definition seed_registry : registry :=
  {| type_table := TYPE_TABLE; type_defaults := TYPE_DEFAULT |}.

(** [RegisterTypeConversion(data_class, adapter, converter, default)], for
    a class named [type_name]. *)
Definition RegisterTypeConversion (type_name : string) (default : value)
    (reg : registry) : registry :=
  let sql_type := lower type_name in
  {| type_table := <[type_name := sql_type]> (type_table reg);
     type_defaults := <[sql_type := default]> (type_defaults reg) |}.

(** What [MakeColumns] reads from the object a field is annotated with.
    [PyClass] is an object for which [hasattr(var_type, "__name__")] holds,
    with its [__name__] and, if it has one, its [__sql_type__].  [PyAlias]
    is an object without [__name__]: [get_origin] gives its origin ([None],
    or an object of the first sort) and [get_args] its arguments, which are
    classes, known by their names. *)
Inductive pytype : Type :=
  | PyClass (name : string) (sql_type : option string)
  | PyAlias (origin : option (string * option string)) (args : list string).

(** A data class as [RegisterTables] receives it: its name, its
    [__annotations__] in declaration order, and the [__tablename__] its
    own [__dict__] is declared with, if any. *)
Record decl : Type := {
  d_name : string;
  d_annotations : list (string * pytype);
  d_tablename : option string
}.

(** What the registration writes: [self.tables]; on the classes, per class
    name, [__sql_columns__] (no entry for a class without the attribute)
    and the [__tablename__] it assigns; the identity cache; and what was
    printed.  Classes are told apart by their names and do not inherit
    these attributes from one another. *)
Record classes : Type := {
  tables : list decl;
  sql_columns : gmap string (list (string * string));
  tablenames : gmap string string;
  buckets : gmap string (gmap Z nat);
  printed : list string
}.

Definition set_tables (t : list decl) (cs : classes) : classes :=
  {| tables := t; sql_columns := sql_columns cs; tablenames := tablenames cs;
     buckets := buckets cs; printed := printed cs |}.

Definition set_columns (class_name : string) (columns : list (string * string))
    (cs : classes) : classes :=
  {| tables := tables cs; sql_columns := <[class_name := columns]> (sql_columns cs);
     tablenames := tablenames cs; buckets := buckets cs; printed := printed cs |}.

Definition set_tablename (class_name name : string) (cs : classes) : classes :=
  {| tables := tables cs; sql_columns := sql_columns cs;
     tablenames := <[class_name := name]> (tablenames cs);
     buckets := buckets cs; printed := printed cs |}.

Definition set_bucket (class_name : string) (bucket : gmap Z nat) (cs : classes)
    : classes :=
  {| tables := tables cs; sql_columns := sql_columns cs; tablenames := tablenames cs;
     buckets := <[class_name := bucket]> (buckets cs); printed := printed cs |}.

Definition print (line : string) (cs : classes) : classes :=
  {| tables := tables cs; sql_columns := sql_columns cs; tablenames := tablenames cs;
     buckets := buckets cs; printed := printed cs ++ [line] |}.

Definition columns_of (cs : classes) (class_name : string) : list (string * string) :=
  default [] (sql_columns cs !! class_name).

(** [data_class.__tablename__] read on a class. *)
Definition tablename_of (cs : classes) (data_class : decl) : option string :=
  match d_tablename data_class with
  | Some name => Some name
  | None => tablenames cs !! d_name data_class
  end.

Inductive schema_exn : Type :=
  | SchemaIndexError
  | SchemaAttributeError
  | SchemaUnboundLocalError.

Definition ListIdentifier (parent_name varname : string) : string :=
  "_" +:+ lower parent_name +:+ "_" +:+ varname +:+ "_list".

Definition MakeListID (a : string) : string := a +:+ "_id".

Definition MakeListOrder (a : string) : string := a +:+ "_order".

Definition append_if_absent (column : string * string)
    (columns : list (string * string)) : list (string * string) :=
  if bool_decide (column ∈ columns) then columns else columns ++ [column].

Definition RegisterList (parent_name child_name varname : string) (cs : classes)
    : classes :=
  let list_id := ListIdentifier parent_name varname in
  let id := MakeListID list_id in
  let order := MakeListOrder list_id in
  (* register it with the child if necessary *)
  let columns := columns_of cs child_name in
  let list_id_column := (id, "integer") in
  let list_order_column := (order, "integer") in
  set_columns child_name
    (append_if_absent list_order_column (append_if_absent list_id_column columns))
    cs.

Definition unrecognized_warning (var_name class_name : string) : string :=
  "WARNING: " +:+ var_name +:+ " in " +:+ class_name +:+ " not a recognized datatype!".

(** The loop of [MakeColumns] over the annotations.  [var_args] is the
    local variable of that name: it is bound by the first annotation
    without [__name__] and keeps its value over the later turns. *)
Fixpoint MakeColumns_loop (table : gmap string string) (class_name : string)
    (annotations : list (string * pytype)) (var_args : option string)
    (columns : list (string * string)) (cs : classes)
    : (list (string * string) + schema_exn) * classes :=
  match annotations with
  | [] => (inl columns, cs)
  | (var_name, var_type) :: rest =>
      let continue_with va cols cs' :=
        MakeColumns_loop table class_name rest va cols cs' in
      let read :=
        match var_type with
        | PyClass name sql_type => inl (name, Some (name, sql_type), var_args)
        | PyAlias origin [] => inr SchemaIndexError
        | PyAlias origin (a :: _) => inl ("", origin, Some a)
        end in
      match read with
      | inr x => (inr x, cs)
      | inl (classname, var_type', var_args') =>
          match table !! classname with
          | Some sql_type => continue_with var_args' (columns ++ [(var_name, sql_type)]) cs
          | None =>
              match var_type' with
              | Some (_, Some sql_type) =>
                  continue_with var_args' (columns ++ [(var_name, sql_type)]) cs
              | Some (name, None) =>
                  if String.eqb name "List" then
                    match var_args' with
                    | None => (inr SchemaUnboundLocalError, cs)
                    | Some child =>
                        continue_with var_args' columns
                          (RegisterList class_name child var_name cs)
                    end
                  else
                    continue_with var_args' columns
                      (print (unrecognized_warning var_name class_name) cs)
              | None =>
                  (* hasattr(None, "__sql_type__") is false; None.__name__ *)
                  (inr SchemaAttributeError, cs)
              end
          end
      end
  end.

Definition MakeColumns (table : gmap string string) (data_class : decl)
    (cs : classes) : (list (string * string) + schema_exn) * classes :=
  MakeColumns_loop table (d_name data_class) (d_annotations data_class) None [] cs.

(** One turn of the loop of [RegisterTables]. *)
Definition register_one (table : gmap string string) (data_class : decl)
    (cs : classes) : (unit + schema_exn) * classes :=
  let dc_name := d_name data_class in
  (* initialize cache *)
  let cs1 := set_bucket dc_name ∅ cs in
  (* initialize column names *)
  let cs2 := match sql_columns cs1 !! dc_name with
             | Some _ => cs1
             | None => set_columns dc_name [] cs1
             end in
  match MakeColumns table data_class cs2 with
  | (inr x, cs3) => (inr x, cs3)
  | (inl made, cs3) =>
      let cs4 := set_columns dc_name (columns_of cs3 dc_name ++ made) cs3 in
      (* initialize table name *)
      match tablename_of cs4 data_class with
      | Some _ => (inl tt, cs4)
      | None => (inl tt, set_tablename dc_name (lower dc_name +:+ "_table") cs4)
      end
  end.

Fixpoint register_each (table : gmap string string) (data_classes : list decl)
    (cs : classes) : (unit + schema_exn) * classes :=
  match data_classes with
  | [] => (inl tt, cs)
  | data_class :: rest =>
      match register_one table data_class cs with
      | (inr x, cs') => (inr x, cs')
      | (inl _, cs') => register_each table rest cs'
      end
  end.

Definition RegisterTables (table : gmap string string) (data_classes : list decl)
    (cs : classes) : (unit + schema_exn) * classes :=
  register_each table data_classes (set_tables data_classes cs).

(** The column a field gives, if it gives one: the storage type of a
    registered scalar, else the custom storage type of the annotation. *)
Definition column_of (table : gmap string string) (field : string * pytype)
    : option (string * string) :=
  let classname := match snd field with PyClass name _ => name | PyAlias _ _ => "" end in
  match table !! classname with
  | Some sql_type => Some (fst field, sql_type)
  | None =>
      match snd field with
      | PyClass _ (Some sql_type) => Some (fst field, sql_type)
      | PyAlias (Some (_, Some sql_type)) _ => Some (fst field, sql_type)
      | _ => None
      end
  end.

(** An annotation [MakeColumns] gets through: an object with [__name__],
    unless it is a bare [List]; or one with an origin and an argument. *)
Definition readable (table : gmap string string) (ty : pytype) : Prop :=
  match ty with
  | PyClass name sql_type =>
      is_Some (table !! name) ∨ is_Some sql_type ∨ name ≠ "List"
  | PyAlias (Some _) (_ :: _) => True
  | PyAlias _ _ => False
  end.

(** The list fields among the annotations, with the class each is
    registered on: those that reach the [List] branch. *)
Definition list_field (table : gmap string string) (field : string * pytype)
    : option (string * string) :=
  match snd field with
  | PyAlias (Some (name, None)) (child :: _) =>
      match table !! "" with
      | Some _ => None
      | None => if String.eqb name "List" then Some (fst field, child) else None
      end
  | _ => None
  end.

Definition empty_classes : classes :=
  {| tables := []; sql_columns := ∅; tablenames := ∅; buckets := ∅; printed := [] |}.

(** The two columns [RegisterList] keeps on the child of a list field. *)
Definition list_id_column (parent_name varname : string) : string * string :=
  (MakeListID (ListIdentifier parent_name varname), "integer").

Definition list_order_column (parent_name varname : string) : string * string :=
  (MakeListOrder (ListIdentifier parent_name varname), "integer").

(** What one readable field leaves on the classes: nothing for a column,
    the registration for a list field, a printed warning otherwise. *)
Definition after_field (table : gmap string string) (class_name : string)
    (cs : classes) (field : string * pytype) : classes :=
  match column_of table field with
  | Some _ => cs
  | None =>
      match list_field table field with
      | Some (var_name, child) => RegisterList class_name child var_name cs
      | None => print (unrecognized_warning (fst field) class_name) cs
      end
  end.

Definition after_fields (table : gmap string string) (class_name : string)
    (annotations : list (string * pytype)) (cs : classes) : classes :=
  foldl (after_field table class_name) cs annotations.

(** The value of the local [var_args] after the loop went over
    [annotations]: the first argument of the last one without [__name__]. *)
Definition bound_after (annotations : list (string * pytype))
    (var_args : option string) : option string :=
  foldl (fun va field =>
           match snd field with
           | PyAlias _ (a :: _) => Some a
           | _ => va
           end) var_args annotations.

Definition default_tablename (class_name : string) : string :=
  lower class_name +:+ "_table".

(** The classes after a class whose annotations are all readable went
    through one turn of the loop of [RegisterTables]: [prepared] once its
    bucket and its column list are initialised. *)
Definition prepared (data_class : decl) (cs : classes) : classes :=
  let dc_name := d_name data_class in
  let cs1 := set_bucket dc_name ∅ cs in
  match sql_columns cs1 !! dc_name with
  | Some _ => cs1
  | None => set_columns dc_name [] cs1
  end.

Definition registered (table : gmap string string) (data_class : decl)
    (cs : classes) : classes :=
  let dc_name := d_name data_class in
  let cs3 := after_fields table dc_name (d_annotations data_class)
               (prepared data_class cs) in
  let cs4 := set_columns dc_name
               (columns_of cs3 dc_name
                ++ omap (column_of table) (d_annotations data_class)) cs3 in
  match tablename_of cs4 data_class with
  | Some _ => cs4
  | None => set_tablename dc_name (default_tablename dc_name) cs4
  end.

(** Every annotation of every class is readable. *)
Definition all_readable (table : gmap string string) (data_classes : list decl) : Prop :=
  Forall (fun data_class =>
            Forall (fun field => readable table (snd field))
              (d_annotations data_class)) data_classes.

End Schema.

(** ** More sample kinds and rows *)

Module More.

(** A kind with a reference-typed field. *)
Definition pet : kind :=
  {| k_name := "Pet";
     k_tablename := "pet_table";
     k_sql_columns := [("name", "text"); ("owner", "integer")];
     k_immutable := false;
     k_annotations := ["name"; "owner"; "toys"];
     k_init_dict := <["dbid" := VInt (-1)]> (<["mood" := VText "calm"]> ∅);
     k_ref_fields := ["owner"];
     k_list_fields := ["toys"] |}.

Definition rex_row : sqlrow :=
  {| r_dbid := 3; r_fields := [("name", VText "rex"); ("owner", VInt 0)] |}.

(** A pet in memory, cached under the key [3], with values that differ
    from the stored row. *)
Definition old_rex : obj :=
  {| o_class := pet;
     o_dict := list_to_map [("dbid", VInt 3); ("name", VText "old"); ("mood", VText "wild")];
     o_refs := <["owner" := VInt 9]> ∅;
     o_lists := [{| cl_field := "toys"; cl_from_db := false; cl_broken := false |}] |}.

Definition pet_store (h : list obj) (pets : gmap Z nat) (rows : list row) : store :=
  {| heap := h; cache := <["Pet" := pets]> ∅;
     db := <["pet_table" := {| t_columns := ["name"; "owner"]; t_rows := rows |}]> ∅;
     type_default := TYPE_DEFAULT; log := [] |}.

Definition pet_rows : list row :=
  [(3, [VText "rex"; VInt 0]); (5, [VText "tom"; VInt 1]); (8, [VText "kit"; VInt 0])].

(** Three stored pets, the first of them cached. *)
Definition kennel : store := pet_store [old_rex] (<[3 := 0%nat]> ∅) pet_rows.

(** Registered and created, nothing stored or cached. *)
Definition empty_kennel : store := pet_store [] ∅ [].

(** A kind none of whose fields gave a column, and a keyed instance of
    it. *)
Definition tag : kind :=
  {| k_name := "Tag"; k_tablename := "tag_table"; k_sql_columns := [];
     k_immutable := false; k_annotations := []; k_init_dict := ∅;
     k_ref_fields := []; k_list_fields := [] |}.

Definition tag_store : store :=
  {| heap := [{| o_class := tag; o_dict := <["dbid" := VInt 0]> ∅;
                 o_refs := ∅; o_lists := [] |}];
     cache := ∅; db := ∅; type_default := TYPE_DEFAULT; log := [] |}.

(** An engine that understands [owner = ?], keeps the stored order under
    [order by], and answers [random()] with the stored order reversed. *)
Definition engine : SQL.query_engine :=
  {| SQL.where_clause := fun text vals =>
       if String.eqb text "owner = ?" then
         match vals with
         | [v] => Some (fun rw => bool_decide (Sample.field "owner" rw = Some v))
         | _ => None
         end
       else None;
     SQL.order_by := fun _ => Some (fun rows => rows);
     SQL.random_order := fun rows => rev rows;
     SQL.random_order_perm := fun rows => Permutation_sym (Permutation_rev rows) |}.

End More.

(** * Properties *)

(** ** The sample kinds *)


Lemma sample_medal_wf : kind_wf Sample.medal.
Proof. split; [discriminate | reflexivity | repeat constructor]. Qed.


(** ** Strings *)

Lemma string_app_cons (ch : ascii) (a b : string) :
  String ch a +:+ b = String ch (a +:+ b).
Proof. reflexivity. Qed.

Lemma string_app_nil_l (a : string) : "" +:+ a = a.
Proof. reflexivity. Qed.

Lemma string_app_assoc (a b c : string) : (a +:+ b) +:+ c = a +:+ (b +:+ c).
Proof.
  induction a as [|ch a IH]; [reflexivity|].
  now rewrite !string_app_cons, IH.
Qed.

Lemma string_app_nil_r (a : string) : a +:+ "" = a.
Proof.
  induction a as [|ch a IH]; [reflexivity|].
  now rewrite string_app_cons, IH.
Qed.

(** ** The query builder *)

Module QueryFacts.
Import Query.

Lemma item0_frag e : is_frag e → item0 e = Ok (frag_text e).
Proof. destruct e; simpl; intros H; [reflexivity | destruct H | destruct H]. Qed.

Lemma extend_frag v e : is_frag e → extend v e = Ok (v ++ frag_vals e).
Proof. destruct e; simpl; intros H; [reflexivity | destruct H | destruct H]. Qed.

Lemma chain_loop_frags (chain_str : string) (exprs : list expr) :
  Forall is_frag exprs →
  ∀ (n start : nat) (q : string) (v : list value),
    (start + n ≤ length exprs)%nat →
    chain_loop exprs chain_str (seq start n) q v
    = Ok (q +:+ prefix_text chain_str (take n (drop start exprs)),
          v ++ concat (map frag_vals (take n (drop start exprs)))).
Proof.
  intros Hall n. induction n as [|n IH]; intros start q v Hle.
  - cbn. now rewrite string_app_nil_r, app_nil_r.
  - destruct (lookup_lt_is_Some_2 exprs start) as [e He]; [lia|].
    assert (Hfe : is_frag e).
    { rewrite Forall_forall in Hall. apply Hall, list_elem_of_lookup. eauto. }
    rewrite (drop_S _ _ _ He). simpl. rewrite He.
    rewrite (item0_frag _ Hfe), (extend_frag _ _ Hfe).
    rewrite IH by lia.
    f_equal. f_equal.
    + now rewrite !string_app_assoc.
    + now rewrite <- app_assoc.
Qed.

Lemma joined_snoc (chain_str : string) (init : list expr) (e : expr) :
  joined chain_str (map frag_text (init ++ [e]))
  = prefix_text chain_str init +:+ "(" +:+ frag_text e +:+ ")".
Proof.
  induction init as [|x init IH]; [reflexivity|].
  change (map frag_text ((x :: init) ++ [e]))
    with (frag_text x :: map frag_text (init ++ [e])).
  assert (Hne : map frag_text (init ++ [e]) ≠ []) by (destruct init; discriminate).
  simpl joined. destruct (map frag_text (init ++ [e])) as [|t ts] eqn:E; [congruence|].
  rewrite IH. simpl prefix_text.
  now rewrite !string_app_assoc.
Qed.

(** On a non-empty tuple of [(text, values)] pairs the chain is the joined
    text with the values in order. *)
Lemma ChainExprs_frags (chain_str : string) (exprs : list expr) :
  exprs ≠ [] → Forall is_frag exprs →
  ChainExprs exprs chain_str
  = Ok (Frag (joined chain_str (map frag_text exprs))
             (concat (map frag_vals exprs))).
Proof.
  intros Hne Hall.
  destruct (exists_last Hne) as [init [e ->]].
  unfold ChainExprs.
  rewrite (chain_loop_frags chain_str _ Hall) by (rewrite length_app; simpl; lia).
  rewrite length_app. simpl length.
  replace (length init + 1 - 1)%nat with (length init) by lia.
  rewrite drop_0, take_app_length.
  rewrite lookup_app_r by lia. rewrite Nat.sub_diag. simpl lookup.
  assert (Hfe : is_frag e).
  { rewrite Forall_forall in Hall. apply Hall. set_solver. }
  cbv beta iota.
  rewrite (item0_frag _ Hfe), (extend_frag _ _ Hfe).
  rewrite joined_snoc, map_app, concat_app. simpl.
  now rewrite app_nil_r, !string_app_assoc.
Qed.

Lemma ChainExprs_empty (chain_str : string) :
  ChainExprs [] chain_str = Raise IndexError.
Proof. reflexivity. Qed.

(** C7: [And] and [Or] put every sub-fragment in parentheses, join them
    with [" and "] / [" or "] and concatenate the value tuples from left to
    right; [Not] wraps the text in [not (...)] and keeps the values.
    [And(Equals("a",1), GreaterThan("b",2))] is
    [("(a = ?) and (b > ?)", (1, 2))] and [Not] of it is
    [("not ((a = ?) and (b > ?))", (1, 2))]. *)
Theorem query_fragments_compose
    (exprs : list expr) (text : string) (vals : list value)
    (Hne : exprs ≠ []) (Hfrag : Forall is_frag exprs) :
  And exprs = Ok (Frag (joined " and " (map frag_text exprs))
                       (concat (map frag_vals exprs)))
  ∧ Or exprs = Ok (Frag (joined " or " (map frag_text exprs))
                        (concat (map frag_vals exprs)))
  ∧ Not (Frag text vals) = Ok (Frag ("not (" +:+ text +:+ ")") vals)
  ∧ And [Equals "a" (VInt 1); GreaterThan "b" (VInt 2)]
    = Ok (Frag "(a = ?) and (b > ?)" [VInt 1; VInt 2])
  ∧ Not (Frag "(a = ?) and (b > ?)" [VInt 1; VInt 2])
    = Ok (Frag "not ((a = ?) and (b > ?))" [VInt 1; VInt 2]).
Proof.
  repeat split.
  - now apply ChainExprs_frags.
  - now apply ChainExprs_frags.
Qed.

Lemma query_fragments_compose_witness :
  [Between "x" (VInt 0) (VInt 9); Like "n" (VText "a%"); Equals "k" VNone] ≠ []
  ∧ Forall is_frag
      [Between "x" (VInt 0) (VInt 9); Like "n" (VText "a%"); Equals "k" VNone]
  ∧ And [Between "x" (VInt 0) (VInt 9); Like "n" (VText "a%"); Equals "k" VNone]
    = Ok (Frag "(x between ? and ?) and (n like ?) and (k = ?)"
               [VInt 0; VInt 9; VText "a%"; VNone])
  ∧ Or [Between "x" (VInt 0) (VInt 9); Like "n" (VText "a%"); Equals "k" VNone]
    = Ok (Frag "(x between ? and ?) or (n like ?) or (k = ?)"
               [VInt 0; VInt 9; VText "a%"; VNone]).
Proof.
  assert (Hne : [Between "x" (VInt 0) (VInt 9); Like "n" (VText "a%");
                 Equals "k" VNone] ≠ []) by discriminate.
  assert (Hfrag : Forall is_frag
                    [Between "x" (VInt 0) (VInt 9); Like "n" (VText "a%");
                     Equals "k" VNone]) by (repeat constructor).
  destruct (query_fragments_compose _ "" [] Hne Hfrag) as [Hand [Hor _]].
  split; [exact Hne|]. split; [exact Hfrag|].
  split; [exact Hand | exact Hor].
Defined.

(** C9: on the empty tuple [And], [Or] and [OrderChain] raise
    [IndexError]; [And] and [Or] succeed on every non-empty tuple of
    fragments, but [OrderChain] applied to what [OrderAscending] returns
    raises [TypeError]: the ordering lambdas return a [str], and
    [ChainExprs] extends a tuple by its second character. *)
Theorem OrderChain_of_order_fragment_raises :
  And [] = Raise IndexError
  ∧ Or [] = Raise IndexError
  ∧ OrderChain [] = Raise IndexError
  ∧ OrderChain [OrderAscending "name"] = Raise TypeError
  ∧ OrderChain [OrderAscending "name"; OrderDescending "age"] = Raise TypeError.
Proof. repeat split. Qed.

End QueryFacts.

(** ** Statement text *)

Lemma placeholders_app (a b : string) :
  Engine.placeholders (a +:+ b)
  = (Engine.placeholders a + Engine.placeholders b)%nat.
Proof.
  induction a as [|ch a IH]; [reflexivity|].
  rewrite string_app_cons. simpl. destruct (Ascii.eqb ch "?"); simpl; lia.
Qed.





Lemma placeholders_select_cmd (table_name : string) (args : string * list value) :
  Engine.placeholders table_name = 0%nat →
  Engine.placeholders (SQL.select_cmd table_name args "")
  = Engine.placeholders (fst args).
Proof.
  intros H. unfold SQL.select_cmd. simpl.
  rewrite !placeholders_app, H. reflexivity.
Qed.

#[global] Opaque SQL.insert_cmd SQL.update_cmd SQL.select_cmd SQL.immutable_warning.


Lemma split_last_Some {A : Type} (l init : list A) (x : A) :
  split_last l = Some (init, x) → l = init ++ [x].
Proof.
  revert init. induction l as [|y l IH]; intros init H; [discriminate|].
  simpl in H. destruct l as [|z l'].
  - injection H as <- <-. reflexivity.
  - destruct (split_last (z :: l')) as [[i' x']|] eqn:E; [|discriminate].
    injection H as <- <-. rewrite (IH i' eq_refl). reflexivity.
Qed.


(** ** Value rows *)





(** ** Dense tables *)

Lemma has_dbid_false (z : Z) (rows : list row) :
  Engine.has_dbid z rows = false ↔ z ∉ map fst rows.
Proof.
  unfold Engine.has_dbid. induction rows as [|r rows IH]; simpl.
  - split; [intros _ H; inversion H | reflexivity].
  - rewrite not_elem_of_cons, orb_false_iff, IH, Z.eqb_neq. intuition congruence.
Qed.



(** ** Running the store's primitives *)




Lemma bind_ok {A B : Type} (m : M A) (k : A → M B) (s s' : store) (a : A)
    (R : result B * store) :
  m s = (Ok a, s') → k a s' = R → bind m k s = R.
Proof. intros Hm Hk. unfold bind. now rewrite Hm. Qed.

Lemma bind_raise {A B : Type} (m : M A) (k : A → M B) (s s' : store) (x : exn) :
  m s = (Raise x, s') → bind m k s = (Raise x, s').
Proof. intros Hm. unfold bind. now rewrite Hm. Qed.

Lemma get_obj_run (s : store) (item : nat) (o : obj) :
  heap s !! item = Some o → get_obj item s = (Ok o, s).
Proof. intros H. unfold get_obj. now rewrite H. Qed.

Lemma setattr_run (s : store) (item : nat) (o : obj) (name : string) (v : value) :
  heap s !! item = Some o →
  setattr item name v s
  = (Ok tt, set_heap (<[item := with_dict (<[name := v]> (o_dict o)) o]> (heap s)) s).
Proof. intros H. unfold setattr. now rewrite H. Qed.

Lemma getattr_run (s : store) (item : nat) (o : obj) (name : string) (v : value) :
  heap s !! item = Some o → o_dict o !! name = Some v →
  getattr item name s = (Ok v, s).
Proof.
  intros H Hv. unfold getattr. eapply bind_ok; [exact (get_obj_run _ _ _ H)|].
  simpl. now rewrite Hv.
Qed.

Lemma cache_store_run (s : store) (dc_name : string) (bucket : gmap Z nat)
    (dbid : Z) (item : nat) :
  cache s !! dc_name = Some bucket →
  cache_store dc_name dbid item s
  = (Ok tt, set_cache (<[dc_name := <[dbid := item]> bucket]> (cache s)) s).
Proof. intros H. unfold cache_store. now rewrite H. Qed.

Lemma TableLength_run (s : store) (dc : kind) (t : table) :
  db s !! k_tablename dc = Some t →
  SQL.TableLength dc s
  = (Ok (length (t_rows t)),
     add_log (EvExecute ("select * from " +:+ k_tablename dc) []) s).
Proof.
  intros H. unfold SQL.TableLength. eapply bind_ok; [reflexivity|].
  unfold Engine.select_all. simpl. now rewrite H.
Qed.








(** ** [Update] and [Add] *)

Lemma Update_immutable (st : store) (item : nat) (o : obj) (dbid : value)
    (commit : bool) :
  heap st !! item = Some o →
  o_dict o !! "dbid" = Some dbid →
  k_immutable (o_class o) = true →
  SQL.Update item false commit st
  = (Ok tt, add_log (EvPrint (SQL.immutable_warning (o_class o))) st).
Proof.
  intros Ho Hd Him. unfold SQL.Update.
  eapply bind_ok; [exact (get_obj_run _ _ _ Ho)|].
  simpl. rewrite Hd, Him. reflexivity.
Qed.

Lemma Update_without_dbid (st : store) (item : nat) (o : obj)
    (force_update commit : bool) :
  heap st !! item = Some o →
  o_dict o !! "dbid" = None →
  SQL.Update item force_update commit st = SQL.Add_fresh item commit st.
Proof.
  intros Ho Hd. unfold SQL.Update.
  eapply bind_ok; [exact (get_obj_run _ _ _ Ho)|].
  simpl. now rewrite Hd.
Qed.



Lemma Add_no_valid_dbid (st : store) (item : nat) (o : obj) (commit : bool) :
  heap st !! item = Some o →
  has_valid_dbid (o_dict o) = false →
  SQL.Add item commit st = SQL.Add_fresh item commit st.
Proof.
  intros Ho Hv. unfold SQL.Add.
  eapply bind_ok; [exact (get_obj_run _ _ _ Ho)|].
  simpl. now rewrite Hv.
Qed.

(** ** The identity cache *)

Lemma ProcessRow_cached (st : store) (dc : kind) (rw : sqlrow)
    (bucket : gmap Z nat) (item : nat) (o : obj) :
  cache st !! k_name dc = Some bucket →
  bucket !! r_dbid rw = Some item →
  heap st !! item = Some o →
  SQL.ProcessRow dc rw st
  = (Ok item, set_heap (<[item := SQL.copy_row dc rw o]> (heap st)) st).
Proof.
  intros Hb Hi Ho. unfold SQL.ProcessRow.
  eapply bind_ok; [rewrite Hb; reflexivity|].
  simpl. rewrite Hi. unfold SQL.CopyRowToData. now rewrite Ho.
Qed.

Lemma ProcessRow_not_cached (st : store) (dc : kind) (rw : sqlrow)
    (bucket : gmap Z nat) :
  cache st !! k_name dc = Some bucket →
  bucket !! r_dbid rw = None →
  SQL.ProcessRow dc rw st
  = (Ok (length (heap st)),
     {| heap := heap st ++ [SQL.copy_row dc rw (SQL.new_instance dc)];
        cache := <[k_name dc := <[r_dbid rw := length (heap st)]> bucket]> (cache st);
        db := db st; type_default := type_default st; log := log st |}).
Proof.
  intros Hb Hi. unfold SQL.ProcessRow.
  eapply bind_ok; [rewrite Hb; reflexivity|].
  simpl. rewrite Hi.
  eapply bind_ok; [reflexivity|].
  eapply bind_ok; [apply (cache_store_run _ _ bucket); exact Hb|].
  reflexivity.
Qed.



(** ** Sequential [Add] on a dense table *)


(** ** What a failing write leaves in memory *)

Lemma keeps_bind {A B : Type} (m : M A) (k : A → M B) :
  keeps_memory m → (∀ a, keeps_memory (k a)) → keeps_memory (bind m k).
Proof.
  intros Hm Hk s r s' H. unfold bind in H.
  destruct (m s) as [[a|x] s1] eqn:E.
  - destruct (Hm _ _ _ E) as [H1 H2]. destruct (Hk a _ _ _ H) as [H3 H4].
    split; congruence.
  - injection H as <- <-. exact (Hm _ _ _ E).
Qed.

Lemma keeps_ret {A : Type} (a : A) : keeps_memory (ret a).
Proof. intros s r s' H. injection H as <- <-. auto. Qed.

Lemma keeps_raise {A : Type} (x : exn) : keeps_memory (@raise A x).
Proof. intros s r s' H. injection H as <- <-. auto. Qed.


Lemma keeps_emit (e : event) : keeps_memory (emit e).
Proof. intros s r s' H. injection H as <- <-. auto. Qed.

Lemma keeps_get_obj (item : nat) : keeps_memory (get_obj item).
Proof.
  intros s r s' H. unfold get_obj in H.
  destruct (heap s !! item); injection H as <- <-; auto.
Qed.

Lemma keeps_getattr (item : nat) (name : string) : keeps_memory (getattr item name).
Proof.
  apply keeps_bind; [apply keeps_get_obj|].
  intros o. destruct (o_dict o !! name); [apply keeps_ret | apply keeps_raise].
Qed.

Lemma keeps_for_each {A : Type} (body : A → M unit) (l : list A) :
  (∀ x, keeps_memory (body x)) → keeps_memory (for_each body l).
Proof.
  intros Hb. induction l as [|x l IH]; simpl.
  - apply keeps_ret.
  - apply keeps_bind; [apply Hb | intros _; exact IH].
Qed.

Lemma keeps_add_lists (item : nat) : keeps_memory (add_lists item).
Proof.
  apply keeps_bind; [apply keeps_get_obj|]. intros o.
  apply keeps_for_each. intros l. unfold list_add_to_db.
  destruct (cl_broken l); [apply keeps_raise | apply keeps_emit].
Qed.


Lemma keeps_commit_if (commit : bool) : keeps_memory (commit_if commit).
Proof. destruct commit; [apply keeps_emit | apply keeps_ret]. Qed.

Lemma keeps_execute_insert (cmd table_name : string) (params : list value) :
  keeps_memory (execute_insert cmd table_name params).
Proof.
  intros s r s' H. unfold execute_insert in H.
  destruct (Engine.insert _ _ _ _); injection H as <- <-; auto.
Qed.

Lemma keeps_executemany_insert (cmd table_name : string) (rows : list (list value)) :
  keeps_memory (executemany_insert cmd table_name rows).
Proof.
  intros s r s' H. unfold executemany_insert in H.
  destruct (Engine.insert_many _ _ _ _); injection H as <- <-; auto.
Qed.


Lemma keeps_executemany_update (cmd table_name : string) (set_cols : list string)
    (rows : list (list value)) :
  keeps_memory (executemany_update cmd table_name set_cols rows).
Proof.
  intros s r s' H. unfold executemany_update in H.
  destruct (Engine.update_many _ _ _ _ _); injection H as <- <-; auto.
Qed.

Lemma keeps_column_values (idict : gmap string value)
    (cols : list (string * string)) :
  keeps_memory (fun s => (column_values idict (type_default s) cols, s)).
Proof. intros s r s' H. injection H as <- <-. auto. Qed.

(** The part of [Add_fresh] after the instance is cached. *)
Lemma Add_fresh_after_caching (item : nat) (dc : kind) (commit : bool) :
  keeps_memory
    (let! dbid := getattr item "dbid" in
     let! o' := get_obj item in
     let! vals := (fun s => (column_values (o_dict o') (type_default s)
                               (k_sql_columns dc), s)) in
     execute_insert (SQL.insert_cmd (k_tablename dc) (k_sql_columns dc))
       (k_tablename dc) (dbid :: vals) >>>
     add_lists item >>>
     commit_if commit).
Proof.
  apply keeps_bind; [apply keeps_getattr|]. intros dbid.
  apply keeps_bind; [apply keeps_get_obj|]. intros o'.
  apply keeps_bind; [apply keeps_column_values|]. intros vals.
  apply keeps_bind; [apply keeps_execute_insert|]. intros _.
  apply keeps_bind; [apply keeps_add_lists|]. intros _.
  apply keeps_commit_if.
Qed.

Lemma Add_fresh_memory (st : store) (item : nat) (o : obj) (bucket : gmap Z nat)
    (t : table) (commit : bool) (r : result unit) (st' : store) :
  heap st !! item = Some o →
  cache st !! k_name (o_class o) = Some bucket →
  db st !! k_tablename (o_class o) = Some t →
  SQL.Add_fresh item commit st = (r, st') →
  heap st' = <[item := with_dict (<["dbid" := VInt (Z.of_nat (length (t_rows t)))]>
                                    (o_dict o)) o]> (heap st)
  ∧ cache st' = <[k_name (o_class o) :=
                   <[Z.of_nat (length (t_rows t)) := item]> bucket]> (cache st).
Proof.
  intros Ho Hb Ht Hrun. unfold SQL.Add_fresh in Hrun.
  erewrite bind_ok in Hrun; [| exact (get_obj_run _ _ _ Ho) | reflexivity].
  erewrite bind_ok in Hrun; [| exact (TableLength_run _ _ _ Ht) | reflexivity].
  erewrite bind_ok in Hrun; [| apply (setattr_run _ _ o); exact Ho | reflexivity].
  erewrite bind_ok in Hrun; [| apply (cache_store_run _ _ bucket); exact Hb | reflexivity].
  apply (Add_fresh_after_caching item (o_class o) commit) in Hrun.
  exact Hrun.
Qed.






(** ** The batch insert of [AddList] *)








Module AddListFacts.



End AddListFacts.

(** ** Reads that find nothing *)

Lemma filter_none {A : Type} (keep : A → bool) (l : list A) :
  Forall (fun x => keep x = false) l → List.filter keep l = [].
Proof.
  induction 1 as [|x l Hx Hall IH]; [reflexivity|].
  simpl. now rewrite Hx.
Qed.

Lemma ExecuteSelect_none (qe : SQL.query_engine) (st : store) (table_name : string)
    (t : table) (text : string) (vals : list value) (keep : sqlrow → bool) :
  db st !! table_name = Some t →
  Engine.placeholders table_name = 0%nat →
  Engine.placeholders text = length vals →
  SQL.where_clause qe text vals = Some keep →
  Forall (fun r => keep (Engine.fetched t r) = false) (t_rows t) →
  SQL.ExecuteSelect qe table_name (text, vals) "" st
  = (Ok [], add_log (EvExecute (SQL.select_cmd table_name (text, vals) "") vals) st).
Proof.
  intros Ht Hn Hp Hw Hnone. unfold SQL.ExecuteSelect.
  eapply bind_ok; [reflexivity|].
  simpl. rewrite Ht, Hw.
  rewrite placeholders_select_cmd by exact Hn. simpl.
  rewrite Hp, Nat.eqb_refl.
  rewrite filter_none; [reflexivity|].
  apply Forall_fmap. exact Hnone.
Qed.

Lemma SelectAtIndex_none (st : store) (dc : kind) (t : table) (index : Z) :
  db st !! k_tablename dc = Some t →
  Engine.has_dbid index (t_rows t) = false →
  SQL.SelectAtIndex dc index st
  = (Ok None,
     add_log (EvExecute ("select * from " +:+ k_tablename dc +:+ " where dbid = ?")
                [VInt index]) st).
Proof.
  intros Ht Hk. unfold SQL.SelectAtIndex.
  eapply bind_ok; [reflexivity|].
  eapply bind_ok.
  { unfold Engine.select_dbid. simpl. rewrite Ht.
    replace (filter _ (t_rows t)) with (@nil (Z * list value)); [reflexivity|].
    symmetry. apply has_dbid_false in Hk.
    induction (t_rows t) as [|r rows IH]; [reflexivity|].
    simpl in Hk. apply not_elem_of_cons in Hk as [Hne Hrest].
    rewrite filter_cons_False by (intros E; congruence).
    now apply IH. }
  reflexivity.
Qed.

Lemma RandomEntries_empty (qe : SQL.query_engine) (st : store) (dc : kind)
    (t : table) (num : Z) :
  db st !! k_tablename dc = Some t →
  t_rows t = [] →
  SQL.RandomEntries qe dc num st
  = (Ok [],
     add_log (EvExecute ("select * from " +:+ k_tablename dc
                           +:+ " order by random() limit "
                           +:+ SQL.decimal (Z.to_nat (Z.max 1 num))) []) st).
Proof.
  intros Ht Hrows. unfold SQL.RandomEntries.
  eapply bind_ok; [reflexivity|].
  eapply bind_ok.
  { simpl. rewrite Ht, Hrows. simpl.
    rewrite (proj1 (Permutation_nil_r _) (SQL.random_order_perm qe [])).
    rewrite take_nil. reflexivity. }
  reflexivity.
Qed.

Module SelectFacts.

(** C8: when no row matches, [SelectOne] and [SelectAtIndex] return
    [None] and [Select] returns the empty list, and on a table without
    rows [RandomEntries] returns the empty list; none of them raises, and
    none of them touches the instances, the cache or the rows. *)
Theorem absence_is_not_an_error (qe : SQL.query_engine) (st : store)
    (dc : kind) (t : table) (text : string) (vals : list value)
    (keep : sqlrow → bool) (index num : Z) (st0 : store) (t0 : table)
    (Ht : db st !! k_tablename dc = Some t)
    (Hname : Engine.placeholders (k_tablename dc) = 0%nat)
    (Hbind : Engine.placeholders text = length vals)
    (Hwhere : SQL.where_clause qe text vals = Some keep)
    (Hnone : Forall (fun r => keep (Engine.fetched t r) = false) (t_rows t))
    (Hindex : Engine.has_dbid index (t_rows t) = false)
    (Ht0 : db st0 !! k_tablename dc = Some t0)
    (Hempty : t_rows t0 = []) :
  SQL.SelectOne qe dc (text, vals) st
  = (Ok None,
     add_log (EvExecute (SQL.select_cmd (k_tablename dc) (text, vals) "") vals) st)
  ∧ SQL.Select qe dc (text, vals) "" st
    = (Ok [],
       add_log (EvExecute (SQL.select_cmd (k_tablename dc) (text, vals) "") vals) st)
  ∧ SQL.SelectAtIndex dc index st
    = (Ok None,
       add_log (EvExecute ("select * from " +:+ k_tablename dc +:+ " where dbid = ?")
                  [VInt index]) st)
  ∧ SQL.RandomEntries qe dc num st0
    = (Ok [],
       add_log (EvExecute ("select * from " +:+ k_tablename dc
                             +:+ " order by random() limit "
                             +:+ SQL.decimal (Z.to_nat (Z.max 1 num))) []) st0).
Proof.
  repeat split.
  - unfold SQL.SelectOne.
    eapply bind_ok; [now apply (ExecuteSelect_none qe st _ t text vals keep)|].
    reflexivity.
  - unfold SQL.Select.
    eapply bind_ok; [now apply (ExecuteSelect_none qe st _ t text vals keep)|].
    reflexivity.
  - now apply (SelectAtIndex_none st dc t).
  - now apply (RandomEntries_empty qe st0 dc t0).
Qed.

Lemma absence_is_not_an_error_witness :
  SQL.SelectOne Sample.engine Sample.person ("age > ?", [VInt 100]) Sample.stored_store
    = (Ok None,
       add_log (EvExecute "select * from person_table where age > ?" [VInt 100])
         Sample.stored_store)
  ∧ SQL.Select Sample.engine Sample.person ("age > ?", [VInt 100]) "" Sample.stored_store
    = (Ok [],
       add_log (EvExecute "select * from person_table where age > ?" [VInt 100])
         Sample.stored_store)
  ∧ SQL.SelectAtIndex Sample.person 5 Sample.stored_store
    = (Ok None,
       add_log (EvExecute "select * from person_table where dbid = ?" [VInt 5])
         Sample.stored_store)
  ∧ SQL.RandomEntries Sample.engine Sample.person 3 Sample.empty_store
    = (Ok [],
       add_log (EvExecute "select * from person_table order by random() limit 3" [])
         Sample.empty_store).
Proof.
  eapply (absence_is_not_an_error Sample.engine Sample.stored_store Sample.person
            {| t_columns := ["name"; "age"]; t_rows := Sample.stored_rows |}
            "age > ?" [VInt 100] _ 5 3 Sample.empty_store
            {| t_columns := ["name"; "age"]; t_rows := [] |}).
  - reflexivity.
  - reflexivity.
  - reflexivity.
  - reflexivity.
  - repeat constructor.
  - reflexivity.
  - reflexivity.
  - reflexivity.
Defined.

End SelectFacts.

(** ** The claims about [Add], [Update] and the identity cache *)

Module CacheFacts.



End CacheFacts.

Module AddFacts.



End AddFacts.

Module UpdateFacts.

(** C3, as the code has it: for an instance that carries a [dbid]
    attribute and whose kind is immutable, [Update] without [force_update]
    prints the warning and returns; it sends nothing to the connection and
    leaves the rows, the cache and the instances as they are. *)
Theorem Update_immutable_is_noop (st : store) (item : nat) (o : obj)
    (dbid : value) (commit : bool)
    (Ho : heap st !! item = Some o)
    (Hd : o_dict o !! "dbid" = Some dbid)
    (Him : k_immutable (o_class o) = true) :
  ∃ st',
    SQL.Update item false commit st = (Ok tt, st')
    ∧ log st' = log st ++ [EvPrint ("WARNING: Can't update immutable type "
                                     +:+ k_name (o_class o) +:+ "!")]
    ∧ db st' = db st ∧ cache st' = cache st ∧ heap st' = heap st
    ∧ type_default st' = type_default st.
Proof.
  exists (add_log (EvPrint (SQL.immutable_warning (o_class o))) st).
  split; [exact (Update_immutable _ _ _ _ _ Ho Hd Him)|].
  repeat split.
Qed.

Lemma Update_immutable_is_noop_witness :
  SQL.Update 2%nat false true Sample.stored_store
  = (Ok tt, add_log (EvPrint "WARNING: Can't update immutable type Medal!")
              Sample.stored_store).
Proof.
  destruct (Update_immutable_is_noop Sample.stored_store 2%nat Sample.silver
              (VInt 0) true eq_refl eq_refl eq_refl)
    as [st' [Hrun [Hlog [Hdb [Hc [Hh Htd]]]]]].
  rewrite Hrun. f_equal. destruct st'. simpl in *. now subst.
Defined.

(** C3 as stated fails for an instance without a [dbid] attribute: on
    the immutable kind [Medal], [Update] of such an instance runs [Add],
    which executes a [select] and an [insert], stores a row and caches the
    instance. *)
Lemma Update_immutable_inserts_unkeyed :
  heap Sample.empty_store !! 3%nat = Some Sample.gold
  ∧ k_immutable (o_class Sample.gold) = true
  ∧ fst (SQL.Update 3%nat false true Sample.empty_store) = Ok tt
  ∧ log (snd (SQL.Update 3%nat false true Sample.empty_store))
    = [EvExecute "select * from medal_table" [];
       EvExecute "insert into medal_table values (?, ?)" [VInt 0; VText "gold"];
       EvCommit]
  ∧ t_rows <$> (db Sample.empty_store !! "medal_table") = Some []
  ∧ t_rows <$> (db (snd (SQL.Update 3%nat false true Sample.empty_store))
                  !! "medal_table")
    = Some [(0, [VText "gold"])]
  ∧ (cache (snd (SQL.Update 3%nat false true Sample.empty_store)) !! "Medal")
      ≫= (fun b => b !! 0)
    = Some 3%nat.
Proof. repeat split; vm_compute; reflexivity. Qed.

(** C5: [Update] hands an instance to [Add] only when it has no [dbid]
    attribute.  An instance whose [dbid] is the sentinel [-1] is not
    handed over: [Update] executes [update ... where dbid = ?] bound to
    [-1], which changes no row, and the instance is never inserted;
    [Add] on the same instance inserts it. *)
Theorem Update_with_sentinel_key_runs_update :
  heap Sample.empty_store !! 1%nat = Some Sample.bob
  ∧ o_dict Sample.bob !! "dbid" = Some (VInt (-1))
  ∧ has_valid_dbid (o_dict Sample.bob) = false
  ∧ SQL.Update 1%nat false true Sample.empty_store
    = (Ok tt,
       {| heap := heap Sample.empty_store;
          cache := cache Sample.empty_store;
          db := db Sample.empty_store;
          type_default := TYPE_DEFAULT;
          log := [EvExecute "update person_table set name = ?, age = ? where dbid = ?"
                    [VText "bob"; VInt 41; VInt (-1)];
                  EvCommit] |})
  ∧ log (snd (SQL.Add 1%nat true Sample.empty_store))
    = [EvExecute "select * from person_table" [];
       EvExecute "insert into person_table values (?, ?, ?)"
         [VInt 0; VText "bob"; VInt 41];
       EvCommit].
Proof. repeat split; vm_compute; reflexivity. Qed.

(** [Update] does hand over an instance that has no [dbid] attribute. *)
Lemma Update_without_key_is_Add (st : store) (item : nat) (o : obj)
    (force_update commit : bool) :
  heap st !! item = Some o →
  o_dict o !! "dbid" = None →
  SQL.Update item force_update commit st = SQL.Add item commit st.
Proof.
  intros Ho Hd. rewrite (Update_without_dbid _ _ _ _ _ Ho Hd).
  symmetry. apply (Add_no_valid_dbid _ _ _ _ Ho).
  unfold has_valid_dbid. now rewrite Hd.
Qed.

(** C4: the calls after the [if]/[else] of [UpdateList] sit inside its
    loop over the items.  With two keyed items the multi-row [UPDATE] is
    executed twice, the second time over both rows, so the first row is
    updated twice; with two items that lack a key, the second turn hands
    both to [AddList], which gives the second item the key [0] again, and
    the insert raises. *)
Theorem UpdateList_repeats_its_batches :
  SQL.UpdateList [0%nat; 1%nat] false true Sample.stored_store
  = (Ok tt,
     {| heap := heap Sample.stored_store;
        cache := cache Sample.stored_store;
        db := Sample.tables [(0, [VText "dave"; VInt 30]); (1, [VText "erin"; VInt 52])]
                [(0, [VText "silver"])];
        type_default := TYPE_DEFAULT;
        log := [EvExecuteMany "update person_table set name = ?, age = ? where dbid = ?"
                  [[VText "dave"; VInt 30; VInt 0]];
                EvCommit;
                EvExecuteMany "update person_table set name = ?, age = ? where dbid = ?"
                  [[VText "dave"; VInt 30; VInt 0]; [VText "erin"; VInt 52; VInt 1]];
                EvCommit] |})
  ∧ fst (SQL.UpdateList [0%nat; 2%nat] false true Sample.empty_store)
    = Raise IntegrityError
  ∧ log (snd (SQL.UpdateList [0%nat; 2%nat] false true Sample.empty_store))
    = [EvExecuteMany "insert into person_table values (?, ?, ?)"
         [[VInt 0; VText "alice"; VInt (-1)]];
       EvListAdd 0 "pets"; EvCommit;
       EvExecuteMany "update person_table set name = ?, age = ? where dbid = ?" [];
       EvCommit;
       EvExecute "update person_table set name = ?, age = ? where dbid = ?"
         [VText "alice"; VInt (-1); VInt 0];
       EvListUpdate 0 "pets"; EvCommit;
       EvExecuteMany "insert into person_table values (?, ?, ?)"
         [[VInt 0; VText "carol"; VInt (-1)]]].
Proof. repeat split; vm_compute; reflexivity. Qed.

End UpdateFacts.

Module AtomicityFacts.

(** C10: [Add] assigns the key and caches the instance before it executes
    the [INSERT].  When the call raises after that point (the [INSERT], a
    missing default, or the persistence of a child list), the instance
    keeps the key and stays in the cache. *)
Theorem Add_is_not_rolled_back (st : store) (item : nat) (o : obj)
    (bucket : gmap Z nat) (t : table) (commit : bool) (x : exn) (st' : store)
    (Ho : heap st !! item = Some o)
    (Hfresh : has_valid_dbid (o_dict o) = false)
    (Hb : cache st !! k_name (o_class o) = Some bucket)
    (Ht : db st !! k_tablename (o_class o) = Some t)
    (Hraise : SQL.Add item commit st = (Raise x, st')) :
  let n := Z.of_nat (length (t_rows t)) in
  heap st' !! item = Some (with_dict (<["dbid" := VInt n]> (o_dict o)) o)
  ∧ (cache st' !! k_name (o_class o)) ≫= (fun b => b !! n) = Some item.
Proof.
  intros n. rewrite (Add_no_valid_dbid _ _ _ _ Ho Hfresh) in Hraise.
  destruct (Add_fresh_memory _ _ _ _ _ _ _ _ Ho Hb Ht Hraise) as [Hh Hc].
  rewrite Hh, Hc. split.
  - apply list_lookup_insert_eq. eapply lookup_lt_Some; eauto.
  - rewrite lookup_insert_eq. simpl. apply lookup_insert_eq.
Qed.

Lemma Add_is_not_rolled_back_witness :
  fst (SQL.Add 0%nat true Sample.contended_store) = Raise IntegrityError
  ∧ heap (snd (SQL.Add 0%nat true Sample.contended_store)) !! 0%nat
    = Some (with_dict (<["dbid" := VInt 1]> (o_dict Sample.alice)) Sample.alice)
  ∧ (cache (snd (SQL.Add 0%nat true Sample.contended_store)) !! "Person")
      ≫= (fun b => b !! 1)
    = Some 0%nat.
Proof.
  assert (Hrun : SQL.Add 0%nat true Sample.contended_store
                 = (Raise IntegrityError,
                    snd (SQL.Add 0%nat true Sample.contended_store)))
    by (vm_compute; reflexivity).
  split; [now rewrite Hrun|].
  exact (Add_is_not_rolled_back Sample.contended_store 0%nat Sample.alice ∅
           {| t_columns := ["name"; "age"]; t_rows := [(1, [VText "zed"; VInt 7])] |}
           true IntegrityError _ eq_refl eq_refl eq_refl eq_refl Hrun).
Defined.

(** The same when the child-list helper raises: the row is stored, the
    key assigned and the instance cached. *)
Lemma Add_with_broken_child_list :
  fst (SQL.Add 0%nat true Sample.broken_list_store) = Raise CollaboratorError
  ∧ t_rows <$> (db (snd (SQL.Add 0%nat true Sample.broken_list_store))
                  !! "person_table")
    = Some [(0, [VText "al"; VInt (-1)])]
  ∧ (cache (snd (SQL.Add 0%nat true Sample.broken_list_store)) !! "Person")
      ≫= (fun b => b !! 0)
    = Some 0%nat.
Proof. repeat split; vm_compute; reflexivity. Qed.

End AtomicityFacts.

(** * Further properties of the store *)

(** ** Reading rows through the cache *)

Lemma ExecuteSelect_run (qe : SQL.query_engine) (st : store) (table_name : string)
    (t : table) (args : string * list value) (orderby : string)
    (rows : list sqlrow) :
  db st !! table_name = Some t →
  selected_rows qe t args orderby = Some rows →
  Engine.placeholders (SQL.select_cmd table_name args orderby) = length (snd args) →
  SQL.ExecuteSelect qe table_name args orderby st
  = (Ok rows, add_log (EvExecute (SQL.select_cmd table_name args orderby) (snd args)) st).
Proof.
  intros Ht Hsel Hp. unfold SQL.ExecuteSelect.
  eapply bind_ok; [reflexivity|].
  simpl. rewrite Ht. unfold selected_rows in Hsel.
  destruct (SQL.where_clause qe args.1 args.2) as [keep|]; [|discriminate].
  rewrite Hp, Nat.eqb_refl.
  destruct (String.eqb orderby "").
  - now injection Hsel as <-.
  - destruct (SQL.order_by qe orderby) as [arrange|]; [|discriminate].
    now injection Hsel as <-.
Qed.

Lemma ProcessRow_run (st : store) (dc : kind) (rw : sqlrow) (bucket : gmap Z nat) :
  bucket_sound st (k_name dc) bucket →
  ∃ a st' bucket',
    SQL.ProcessRow dc rw st = (Ok a, st')
    ∧ bucket_sound st' (k_name dc) bucket'
    ∧ bucket' !! r_dbid rw = Some a
    ∧ (∀ z b, bucket !! z = Some b → bucket' !! z = Some b)
    ∧ db st' = db st ∧ log st' = log st ∧ type_default st' = type_default st
    ∧ (length (heap st) ≤ length (heap st'))%nat.
Proof.
  intros [Hb Hsound].
  destruct (bucket !! r_dbid rw) as [a|] eqn:Hk.
  - destruct (lookup_lt_is_Some_2 (heap st) a (Hsound _ _ Hk)) as [o Ho].
    exists a, (set_heap (<[a := SQL.copy_row dc rw o]> (heap st)) st), bucket.
    split; [now apply (ProcessRow_cached st dc rw bucket)|].
    simpl. repeat split; auto; try (rewrite length_insert; lia).
    intros z b Hz. simpl. rewrite length_insert. eauto.
  - exists (length (heap st)),
      {| heap := heap st ++ [SQL.copy_row dc rw (SQL.new_instance dc)];
         cache := <[k_name dc := <[r_dbid rw := length (heap st)]> bucket]> (cache st);
         db := db st; type_default := type_default st; log := log st |},
      (<[r_dbid rw := length (heap st)]> bucket).
    split; [now apply ProcessRow_not_cached|].
    simpl. rewrite length_app. simpl. repeat split; try lia.
    + apply lookup_insert_eq.
    + intros z a Hz. destruct (decide (z = r_dbid rw)) as [->|Hne].
      * rewrite lookup_insert_eq in Hz. injection Hz as <-.
        simpl. rewrite length_app. simpl. lia.
      * rewrite lookup_insert_ne in Hz by congruence.
        specialize (Hsound _ _ Hz). simpl. rewrite length_app. simpl. lia.
    + apply lookup_insert_eq.
    + intros z b Hz. rewrite lookup_insert_ne; [exact Hz|]. congruence.
Qed.

Lemma process_rows_run (dc : kind) (rows : list sqlrow) :
  ∀ (acc : list nat) (st : store) (bucket : gmap Z nat),
    bucket_sound st (k_name dc) bucket →
    ∃ addrs st' bucket',
      SQL.process_rows dc rows acc st = (Ok (acc ++ addrs), st')
      ∧ bucket_sound st' (k_name dc) bucket'
      ∧ Forall2 (fun rw a => bucket' !! r_dbid rw = Some a) rows addrs
      ∧ (∀ z b, bucket !! z = Some b → bucket' !! z = Some b)
      ∧ db st' = db st ∧ log st' = log st ∧ type_default st' = type_default st
      ∧ (length (heap st) ≤ length (heap st'))%nat.
Proof.
  induction rows as [|rw rows IH]; intros acc st bucket Hs.
  - exists [], st, bucket. simpl. unfold ret. rewrite app_nil_r.
    repeat split; auto; try apply Hs; try constructor.
  - destruct (ProcessRow_run st dc rw bucket Hs)
      as [a [st1 [b1 [Hrun [Hs1 [Ha [Hmono [Hdb [Hlog [Htd Hlen]]]]]]]]]].
    destruct (IH (acc ++ [a]) st1 b1 Hs1)
      as [addrs [st2 [b2 [Hrun2 [Hs2 [Hall [Hmono2 [Hdb2 [Hlog2 [Htd2 Hlen2]]]]]]]]]].
    exists (a :: addrs), st2, b2. repeat split; try apply Hs2; try congruence; try lia.
    + simpl. eapply bind_ok; [exact Hrun|]. rewrite Hrun2.
      now rewrite <- app_assoc.
    + constructor; [now apply Hmono2 | exact Hall].
    + intros z b Hz. now apply Hmono2, Hmono.
Qed.


(** ** What [CopyRowToData] writes *)

Lemma copy_column_other (dc : kind) (rw : sqlrow) (o : obj)
    (column : string * value) (k : string) :
  fst column ≠ k → k ≠ "dbid" →
  o_dict (SQL.copy_column dc rw o column) !! k = o_dict o !! k
  ∧ o_refs (SQL.copy_column dc rw o column) !! k = o_refs o !! k.
Proof.
  intros Hne Hk. unfold SQL.copy_column.
  destruct (String.eqb_spec (fst column) "dbid") as [E|E]; simpl.
  - split; [apply lookup_insert_ne; congruence | reflexivity].
  - destruct (_ && _); simpl.
    + split; [reflexivity | now apply lookup_insert_ne].
    + split; [now apply lookup_insert_ne | reflexivity].
Qed.

Lemma copy_column_dbid (dc : kind) (rw : sqlrow) (o : obj)
    (column : string * value) :
  o_dict o !! "dbid" = Some (VInt (r_dbid rw)) →
  o_dict (SQL.copy_column dc rw o column) !! "dbid" = Some (VInt (r_dbid rw)).
Proof.
  intros H. unfold SQL.copy_column.
  destruct (String.eqb_spec (fst column) "dbid") as [E|E]; simpl.
  - apply lookup_insert_eq.
  - destruct (_ && _); simpl; [exact H|].
    rewrite lookup_insert_ne; [exact H | exact E].
Qed.

Lemma copy_column_refs_dom (dc : kind) (rw : sqlrow) (o : obj)
    (column : string * value) (k : string) :
  is_Some (o_refs (SQL.copy_column dc rw o column) !! k) ↔ is_Some (o_refs o !! k).
Proof.
  unfold SQL.copy_column.
  destruct (String.eqb (fst column) "dbid"); simpl; [reflexivity|].
  destruct (bool_decide (fst column ∈ k_annotations dc)); simpl; [|reflexivity].
  unfold SQL.get_reference. case_bool_decide as Hr; simpl; [|reflexivity].
  destruct (decide (fst column = k)) as [<-|Hne].
  - rewrite lookup_insert_eq. split; [intros _; exact Hr | eauto].
  - now rewrite lookup_insert_ne.
Qed.

Lemma copy_column_lists (dc : kind) (rw : sqlrow) (o : obj)
    (column : string * value) :
  o_lists (SQL.copy_column dc rw o column) = o_lists o
  ∧ o_class (SQL.copy_column dc rw o column) = o_class o.
Proof.
  unfold SQL.copy_column.
  destruct (String.eqb (fst column) "dbid"); simpl; [auto|].
  destruct (_ && _); simpl; auto.
Qed.

Lemma copy_column_here (dc : kind) (rw : sqlrow) (o : obj) (c : string) (v : value) :
  c ≠ "dbid" →
  (is_reference_column dc o c →
   o_refs (SQL.copy_column dc rw o (c, v)) !! c = Some v
   ∧ o_dict (SQL.copy_column dc rw o (c, v)) !! c = o_dict o !! c)
  ∧ (¬ is_reference_column dc o c →
     o_dict (SQL.copy_column dc rw o (c, v)) !! c = Some v).
Proof.
  intros Hc. unfold SQL.copy_column, is_reference_column, SQL.get_reference. simpl.
  destruct (String.eqb_spec c "dbid") as [E|_]; [contradiction|].
  split.
  - intros [Ha Hr]. rewrite !bool_decide_eq_true_2 by assumption. simpl.
    split; [apply lookup_insert_eq | reflexivity].
  - intros Hn. destruct (bool_decide (c ∈ k_annotations dc)) eqn:Ea; simpl.
    + destruct (decide (is_Some (o_refs o !! c))) as [Hr|Hr].
      * exfalso. apply Hn. split; [now apply bool_decide_eq_true in Ea | exact Hr].
      * rewrite (bool_decide_eq_false_2 _ Hr). simpl. apply lookup_insert_eq.
    + apply lookup_insert_eq.
Qed.

Lemma copy_columns_fold (dc : kind) (rw : sqlrow) (columns : list (string * value)) :
  ∀ (o : obj),
    let o' := fold_left (SQL.copy_column dc rw) columns o in
    (o_dict o !! "dbid" = Some (VInt (r_dbid rw)) →
     o_dict o' !! "dbid" = Some (VInt (r_dbid rw)))
    ∧ o_lists o' = o_lists o ∧ o_class o' = o_class o
    ∧ (∀ k, is_Some (o_refs o' !! k) ↔ is_Some (o_refs o !! k))
    ∧ (∀ k, k ∉ map fst columns → k ≠ "dbid" →
         o_dict o' !! k = o_dict o !! k ∧ o_refs o' !! k = o_refs o !! k)
    ∧ (NoDup (map fst columns) →
       ∀ c v, (c, v) ∈ columns → c ≠ "dbid" →
         (is_reference_column dc o c →
          o_refs o' !! c = Some v ∧ o_dict o' !! c = o_dict o !! c)
         ∧ (¬ is_reference_column dc o c → o_dict o' !! c = Some v)).
Proof.
  induction columns as [|[c1 v1] rest IH]; intros o; cbv zeta.
  - simpl. do 3 (split; [auto|]). split; [reflexivity|]. split; [auto|].
    intros _ c0 v0 Hin. now apply elem_of_nil in Hin.
  - simpl fold_left. set (o1 := SQL.copy_column dc rw o (c1, v1)).
    destruct (IH o1) as [Hd [Hl [Hcl [Hdom [Hout Hin]]]]].
    destruct (copy_column_lists dc rw o (c1, v1)) as [Hl1 Hcl1].
    split; [intros H; apply Hd, copy_column_dbid, H|].
    split; [now rewrite Hl|]. split; [now rewrite Hcl|].
    split; [intros k; rewrite Hdom; apply copy_column_refs_dom|].
    split.
    + intros k Hk Hkd. simpl in Hk. apply not_elem_of_cons in Hk as [Hne Hk].
      destruct (Hout k Hk Hkd) as [H1 H2].
      destruct (copy_column_other dc rw o (c1, v1) k) as [H3 H4]; auto.
      fold o1 in H3, H4. split; congruence.
    + intros Hnd c v Hcv Hcd. simpl in Hnd. apply NoDup_cons in Hnd as [Hnot Hnd].
      apply elem_of_cons in Hcv as [Heq | Hrest].
      * injection Heq as -> ->.
        destruct (Hout c1 Hnot Hcd) as [H1 H2].
        destruct (copy_column_here dc rw o c1 v1 Hcd) as [Hr Hp].
        fold o1 in Hr, Hp. split.
        -- intros Hisr. destruct (Hr Hisr). split; congruence.
        -- intros Hn. rewrite H1. now apply Hp.
      * assert (Hne : c1 ≠ c).
        { intros ->. apply Hnot. apply list_elem_of_fmap. exists (c, v). auto. }
        destruct (copy_column_other dc rw o (c1, v1) c Hne Hcd) as [H3 H4].
        fold o1 in H3, H4.
        assert (Hiff : is_reference_column dc o1 c ↔ is_reference_column dc o c).
        { unfold is_reference_column. now rewrite H4. }
        destruct (Hin Hnd c v Hrest Hcd) as [Hr Hp]. split.
        -- intros Hisr. destruct (Hr (proj2 Hiff Hisr)). split; congruence.
        -- intros Hn. apply Hp. intros Hisr. apply Hn, Hiff, Hisr.
Qed.

Lemma copy_row_spec (dc : kind) (rw : sqlrow) (o : obj) :
  NoDup (map fst (r_fields rw)) →
  let o' := SQL.copy_row dc rw o in
  o_dict o' !! "dbid" = Some (VInt (r_dbid rw))
  ∧ o_class o' = o_class o
  ∧ (∀ c v, (c, v) ∈ r_fields rw → c ≠ "dbid" →
       (is_reference_column dc o c →
        o_refs o' !! c = Some v ∧ o_dict o' !! c = o_dict o !! c)
       ∧ (¬ is_reference_column dc o c → o_dict o' !! c = Some v))
  ∧ (∀ k, k ∉ map fst (r_fields rw) → k ≠ "dbid" →
       o_dict o' !! k = o_dict o !! k ∧ o_refs o' !! k = o_refs o !! k)
  ∧ Forall (fun l => cl_from_db l = true) (o_lists o')
  ∧ map cl_field (o_lists o') = map cl_field (o_lists o)
  ∧ map cl_broken (o_lists o') = map cl_broken (o_lists o).
Proof.
  intros Hnd. cbv zeta. unfold SQL.copy_row, SQL.mark_lists_from_db. simpl fold_left.
  set (o1 := SQL.copy_column dc rw o ("dbid", VInt (r_dbid rw))).
  assert (Ho1 : o1 = with_dict (<["dbid" := VInt (r_dbid rw)]> (o_dict o)) o)
    by reflexivity.
  destruct (copy_columns_fold dc rw (r_fields rw) o1)
    as [Hd [Hl [Hcl [Hdom [Hout Hin]]]]].
  set (o2 := fold_left (SQL.copy_column dc rw) (r_fields rw) o1) in *.
  simpl.
  split; [apply Hd; rewrite Ho1; simpl; apply lookup_insert_eq|].
  split; [rewrite Hcl, Ho1; reflexivity|].
  split.
  { intros c v Hcv Hcd.
    assert (Hiff : is_reference_column dc o1 c ↔ is_reference_column dc o c)
      by (rewrite Ho1; reflexivity).
    assert (Hsame : o_dict o1 !! c = o_dict o !! c)
      by (rewrite Ho1; simpl; apply lookup_insert_ne; congruence).
    destruct (Hin Hnd c v Hcv Hcd) as [Hr Hp]. split.
    - intros Hisr. destruct (Hr (proj2 Hiff Hisr)). split; congruence.
    - intros Hn. apply Hp. intros Hisr. apply Hn, Hiff, Hisr. }
  split.
  { intros k Hk Hkd. destruct (Hout k Hk Hkd) as [H1 H2].
    rewrite H1, H2, Ho1. simpl. split; [|reflexivity].
    apply lookup_insert_ne. congruence. }
  rewrite Hl, Ho1. simpl.
  split; [apply Forall_fmap, Forall_true; reflexivity|].
  split; rewrite <- list_fmap_compose; reflexivity.
Qed.

Module ReadFacts.

(** X1: [ProcessRow] leaves in the instance it returns (the cached one, or
    a new one) the row's key as [dbid]; every other column of the row as
    the field of that name, except that a column annotated on the kind for
    which the instance has a reference is handed to the reference and the
    field is not assigned; fields the row does not name keep their values;
    and every child list is marked as coming from the database. *)
Theorem ProcessRow_copies_row (st : store) (dc : kind) (rw : sqlrow)
    (bucket : gmap Z nat)
    (Hs : bucket_sound st (k_name dc) bucket)
    (Hnd : NoDup (map fst (r_fields rw))) :
  ∃ (a : nat) (st' : store) (o o' : obj),
    SQL.ProcessRow dc rw st = (Ok a, st')
    ∧ heap st' !! a = Some o'
    ∧ ((bucket !! r_dbid rw = Some a ∧ heap st !! a = Some o)
       ∨ (bucket !! r_dbid rw = None ∧ a = length (heap st)
          ∧ o = SQL.new_instance dc))
    ∧ o_dict o' !! "dbid" = Some (VInt (r_dbid rw))
    ∧ (∀ c v, (c, v) ∈ r_fields rw → c ≠ "dbid" →
         (is_reference_column dc o c →
          o_refs o' !! c = Some v ∧ o_dict o' !! c = o_dict o !! c)
         ∧ (¬ is_reference_column dc o c → o_dict o' !! c = Some v))
    ∧ (∀ k, k ∉ map fst (r_fields rw) → k ≠ "dbid" →
         o_dict o' !! k = o_dict o !! k)
    ∧ Forall (fun l => cl_from_db l = true) (o_lists o')
    ∧ map cl_field (o_lists o') = map cl_field (o_lists o).
Proof.
  destruct Hs as [Hb Hsound].
  destruct (copy_row_spec dc rw) with (o := SQL.new_instance dc)
    as [Nd [_ [Nin [Nout [Nl [Nf _]]]]]]; [exact Hnd|].
  destruct (bucket !! r_dbid rw) as [a|] eqn:Hk.
  - destruct (lookup_lt_is_Some_2 (heap st) a (Hsound _ _ Hk)) as [o Ho].
    destruct (copy_row_spec dc rw o Hnd) as [Cd [_ [Cin [Cout [Cl [Cf _]]]]]].
    exists a, (set_heap (<[a := SQL.copy_row dc rw o]> (heap st)) st), o,
      (SQL.copy_row dc rw o).
    split; [now apply (ProcessRow_cached st dc rw bucket)|].
    split; [simpl; apply list_lookup_insert_eq; eapply lookup_lt_Some; eauto|].
    split; [left; auto|].
    split; [exact Cd|]. split; [exact Cin|].
    split; [intros k Hk1 Hk2; now apply Cout|]. split; [exact Cl | exact Cf].
  - exists (length (heap st)),
      {| heap := heap st ++ [SQL.copy_row dc rw (SQL.new_instance dc)];
         cache := <[k_name dc := <[r_dbid rw := length (heap st)]> bucket]> (cache st);
         db := db st; type_default := type_default st; log := log st |},
      (SQL.new_instance dc), (SQL.copy_row dc rw (SQL.new_instance dc)).
    split; [now apply ProcessRow_not_cached|].
    split; [simpl; rewrite lookup_app_r, Nat.sub_diag by lia; reflexivity|].
    split; [right; auto|].
    split; [exact Nd|]. split; [exact Nin|].
    split; [intros k Hk1 Hk2; now apply Nout|]. split; [exact Nl | exact Nf].
Qed.

Lemma ProcessRow_copies_row_witness :
  fst (SQL.ProcessRow More.pet More.rex_row More.kennel) = Ok 0%nat
  ∧ (fun o' => (o_dict o' !! "dbid", o_dict o' !! "name", o_dict o' !! "mood",
                o_dict o' !! "owner", o_refs o' !! "owner",
                map cl_from_db (o_lists o')))
      <$> (heap (snd (SQL.ProcessRow More.pet More.rex_row More.kennel)) !! 0%nat)
    = Some (Some (VInt 3), Some (VText "rex"), Some (VText "wild"),
            None, Some (VInt 0), [true]).
Proof.
  destruct (ProcessRow_copies_row More.kennel More.pet More.rex_row (<[3 := 0%nat]> ∅))
    as [a [st' [o [o' [Hrun _]]]]].
  - split; [reflexivity|]. intros z b Hz.
    destruct (decide (z = 3)) as [->|Hne].
    + rewrite lookup_insert_eq in Hz. injection Hz as <-. simpl. lia.
    + rewrite lookup_insert_ne in Hz by congruence. now rewrite lookup_empty in Hz.
  - apply (bool_decide_unpack _). vm_compute. exact I.
  - assert (Ha : fst (SQL.ProcessRow More.pet More.rex_row More.kennel) = Ok 0%nat)
      by (vm_compute; reflexivity).
    split; [exact Ha|]. vm_compute. reflexivity.
Defined.



(** X3: [SelectOne] returns the instance [Select] (without an ordering)
    returns first, and [None] exactly when [Select] returns the empty
    list. *)
Theorem SelectOne_is_first_of_Select (qe : SQL.query_engine) (st : store)
    (dc : kind) (t : table) (args : string * list value)
    (rows : list sqlrow) (bucket : gmap Z nat)
    (Ht : db st !! k_tablename dc = Some t)
    (Hsel : selected_rows qe t args "" = Some rows)
    (Hp : Engine.placeholders (SQL.select_cmd (k_tablename dc) args "")
          = length (snd args))
    (Hs : bucket_sound st (k_name dc) bucket) :
  ∃ (items : list nat) (st1 st1' : store),
    SQL.Select qe dc args "" st = (Ok items, st1)
    ∧ SQL.SelectOne qe dc args st = (Ok (head items), st1')
    ∧ length items = length rows.
Proof.
  set (ev := EvExecute (SQL.select_cmd (k_tablename dc) args "") (snd args)).
  assert (Hex := ExecuteSelect_run qe st _ t args "" rows Ht Hsel Hp).
  destruct rows as [|rw rest].
  - exists [], (add_log ev st), (add_log ev st). repeat split.
    + unfold SQL.Select. eapply bind_ok; [exact Hex|]. reflexivity.
    + unfold SQL.SelectOne. eapply bind_ok; [exact Hex|]. reflexivity.
  - destruct (ProcessRow_run (add_log ev st) dc rw bucket Hs)
      as [a [s1 [b1 [Hrun [Hs1 _]]]]].
    destruct (process_rows_run dc rest [a] s1 b1 Hs1)
      as [addrs [s2 [b2 [Hrun2 [_ [Hall _]]]]]].
    exists (a :: addrs), s2, s1. repeat split.
    + unfold SQL.Select. eapply bind_ok; [exact Hex|].
      simpl. eapply bind_ok; [exact Hrun|]. exact Hrun2.
    + unfold SQL.SelectOne. eapply bind_ok; [exact Hex|].
      eapply bind_ok; [exact Hrun|]. reflexivity.
    + simpl. f_equal. symmetry. exact (Forall2_length _ _ _ Hall).
Qed.

Lemma SelectOne_is_first_of_Select_witness :
  fst (SQL.Select More.engine More.pet ("owner = ?", [VInt 0]) "" More.kennel)
  = Ok [0%nat; 1%nat]
  ∧ fst (SQL.SelectOne More.engine More.pet ("owner = ?", [VInt 0]) More.kennel)
    = Ok (Some 0%nat).
Proof.
  destruct (SelectOne_is_first_of_Select More.engine More.kennel More.pet
              {| t_columns := ["name"; "owner"]; t_rows := More.pet_rows |}
              ("owner = ?", [VInt 0])
              [{| r_dbid := 3; r_fields := [("name", VText "rex"); ("owner", VInt 0)] |};
               {| r_dbid := 8; r_fields := [("name", VText "kit"); ("owner", VInt 0)] |}]
              (<[3 := 0%nat]> ∅))
    as [items [st1 [st1' [Hrun [Hone _]]]]].
  - reflexivity.
  - vm_compute. reflexivity.
  - vm_compute. reflexivity.
  - split; [reflexivity|]. intros z b Hz.
    destruct (decide (z = 3)) as [->|Hne].
    + rewrite lookup_insert_eq in Hz. injection Hz as <-. simpl. lia.
    + rewrite lookup_insert_ne in Hz by congruence. now rewrite lookup_empty in Hz.
  - assert (Hi : fst (SQL.Select More.engine More.pet ("owner = ?", [VInt 0]) ""
                        More.kennel) = Ok [0%nat; 1%nat])
      by (vm_compute; reflexivity).
    split; [exact Hi|].
    rewrite Hrun in Hi. simpl in Hi. injection Hi as ->.
    now rewrite Hone.
Defined.

End ReadFacts.

(** ** Tables: creating, clearing, counting *)


Lemma CreateTables_skips (tables : list kind) (st : store) :
  SQL.CreateTables tables st
  = for_each SQL.CreateTable
      (filter (fun dc => k_sql_columns dc ≠ []) tables) st.
Proof.
  revert st. induction tables as [|dc tables IH]; intros st; [reflexivity|].
  unfold SQL.CreateTables in *. simpl for_each.
  destruct (k_sql_columns dc) as [|c cs] eqn:E.
  - rewrite filter_cons_False by (rewrite E; congruence).
    simpl. unfold bind, ret. apply IH.
  - rewrite filter_cons_True by (rewrite E; congruence).
    simpl. unfold bind. destruct (SQL.CreateTable dc st) as [[[]|x] s1]; [apply IH|reflexivity].
Qed.

Module TableFacts.



(** X5: a kind without derived columns never gets a table.  [CreateTables]
    is [CreateTable] on the kinds that have a column, in order, and
    [CreateTable] itself raises [IndexError] on a kind without columns
    before it sends anything. *)
Theorem columnless_kind_gets_no_table (tables : list kind) (st : store) (dc : kind)
    (Hcols : k_sql_columns dc = []) :
  SQL.CreateTables tables st
  = for_each SQL.CreateTable (filter (fun dc => k_sql_columns dc ≠ []) tables) st
  ∧ SQL.CreateTables [dc] st = (Ok tt, st)
  ∧ SQL.CreateTable dc st = (Raise IndexError, st).
Proof.
  split; [apply CreateTables_skips|]. split.
  - rewrite CreateTables_skips, filter_cons_False by (rewrite Hcols; congruence).
    reflexivity.
  - unfold SQL.CreateTable. now rewrite Hcols.
Qed.

Lemma columnless_kind_gets_no_table_witness :
  fst (SQL.CreateTables
         [More.pet;
          {| k_name := "Tag"; k_tablename := "tag_table"; k_sql_columns := [];
             k_immutable := false; k_annotations := []; k_init_dict := ∅;
             k_ref_fields := []; k_list_fields := [] |}]
         Sample.empty_store) = Ok tt
  ∧ dom (db (snd (SQL.CreateTables
         [More.pet;
          {| k_name := "Tag"; k_tablename := "tag_table"; k_sql_columns := [];
             k_immutable := false; k_annotations := []; k_init_dict := ∅;
             k_ref_fields := []; k_list_fields := [] |}]
         Sample.empty_store)))
    = ({["person_table"; "medal_table"; "pet_table"]} : gset string).
Proof.
  set (tag := {| k_name := "Tag"; k_tablename := "tag_table"; k_sql_columns := [];
                 k_immutable := false; k_annotations := []; k_init_dict := ∅;
                 k_ref_fields := []; k_list_fields := [] |}).
  destruct (columnless_kind_gets_no_table [More.pet; tag] Sample.empty_store tag eq_refl)
    as [Hskip _].
  rewrite Hskip. split; [vm_compute; reflexivity|].
  apply (bool_decide_unpack _). vm_compute. exact I.
Defined.

End TableFacts.

Module ClearFacts.

(** X6: [Clear] deletes every row of the kind's table and replaces the
    kind's bucket by an empty one; the instances in memory are not touched,
    so an instance that was stored keeps its stale [dbid].  Afterwards
    [TableLength] is [0] and [SelectAtIndex] finds nothing under any key.
    On a table that does not exist the engine raises before the bucket is
    replaced. *)
Theorem Clear_empties_table_and_bucket (st : store) (dc : kind) (t : table)
    (index : Z) (st0 : store)
    (Ht : db st !! k_tablename dc = Some t)
    (Hnone : db st0 !! k_tablename dc = None) :
  (∃ st',
     SQL.Clear dc st = (Ok tt, st')
     ∧ heap st' = heap st
     ∧ cache st' = <[k_name dc := ∅]> (cache st)
     ∧ db st' = <[k_tablename dc := {| t_columns := t_columns t; t_rows := [] |}]> (db st)
     ∧ log st' = log st ++ [EvExecute ("delete from " +:+ k_tablename dc) []; EvCommit]
     ∧ fst (SQL.TableLength dc st') = Ok 0%nat
     ∧ fst (SQL.SelectAtIndex dc index st') = Ok None)
  ∧ SQL.Clear dc st0
    = (Raise OperationalError,
       add_log (EvExecute ("delete from " +:+ k_tablename dc) []) st0).
Proof.
  split.
  - eexists. split.
    { unfold SQL.Clear.
      eapply bind_ok; [reflexivity|].
      eapply bind_ok; [unfold Engine.delete_all; simpl; rewrite Ht; reflexivity|].
      eapply bind_ok; [reflexivity|].
      reflexivity. }
    simpl. repeat split.
    + now rewrite <- app_assoc.
    + rewrite (TableLength_run _ dc {| t_columns := t_columns t; t_rows := [] |})
        by (simpl; apply lookup_insert_eq).
      reflexivity.
    + rewrite (SelectAtIndex_none _ dc {| t_columns := t_columns t; t_rows := [] |})
        by (simpl; first [apply lookup_insert_eq | reflexivity]).
      reflexivity.
  - unfold SQL.Clear.
    eapply bind_ok; [reflexivity|].
    erewrite bind_raise; [reflexivity|].
    unfold Engine.delete_all. simpl. now rewrite Hnone.
Qed.

Lemma Clear_empties_table_and_bucket_witness :
  fst (SQL.Clear Sample.person Sample.stored_store) = Ok tt
  ∧ t_rows <$> (db (snd (SQL.Clear Sample.person Sample.stored_store)) !! "person_table")
    = Some []
  ∧ cache (snd (SQL.Clear Sample.person Sample.stored_store)) !! "Person" = Some ∅
  ∧ (fun o => o_dict o !! "dbid")
      <$> (heap (snd (SQL.Clear Sample.person Sample.stored_store)) !! 1%nat)
    = Some (Some (VInt 1))
  ∧ fst (SQL.Clear Sample.person More.empty_kennel) = Raise OperationalError.
Proof.
  destruct (Clear_empties_table_and_bucket Sample.stored_store Sample.person
              {| t_columns := ["name"; "age"]; t_rows := Sample.stored_rows |}
              1 More.empty_kennel eq_refl eq_refl)
    as [[st' [Hrun [Hh [Hc [Hdb _]]]]] Hmissing].
  rewrite Hrun, Hmissing. simpl. rewrite Hh, Hc, Hdb.
  repeat split; vm_compute; reflexivity.
Defined.

End ClearFacts.

Module RandomFacts.

(** X7: [RandomEntries] returns [min (max 1 num) rows] instances, where
    [rows] is the number of rows of the table: the count asked for is
    raised to [1] when it is smaller, and a table with fewer rows gives
    them all. *)
Theorem RandomEntries_count (qe : SQL.query_engine) (st : store) (dc : kind)
    (t : table) (num : Z) (bucket : gmap Z nat)
    (Ht : db st !! k_tablename dc = Some t)
    (Hs : bucket_sound st (k_name dc) bucket) :
  ∃ items st',
    SQL.RandomEntries qe dc num st = (Ok items, st')
    ∧ length items = Nat.min (Z.to_nat (Z.max 1 num)) (length (t_rows t))
    ∧ (t_rows t ≠ [] → items ≠ [])
    ∧ db st' = db st.
Proof.
  set (limit := Z.to_nat (Z.max 1 num)).
  set (results := take limit (SQL.random_order qe (map (Engine.fetched t) (t_rows t)))).
  set (ev := EvExecute ("select * from " +:+ k_tablename dc
                          +:+ " order by random() limit " +:+ SQL.decimal limit) []).
  destruct (process_rows_run dc results [] (add_log ev st) bucket Hs)
    as [items [st' [b' [Hrun [_ [Hall [_ [Hdb _]]]]]]]].
  assert (Hlen : length items = Nat.min limit (length (t_rows t))).
  { rewrite <- (Forall2_length _ _ _ Hall). unfold results.
    rewrite length_take, (Permutation_length (SQL.random_order_perm qe _)), length_map.
    reflexivity. }
  exists items, st'. split.
  { unfold SQL.RandomEntries. fold limit.
    eapply bind_ok; [reflexivity|].
    eapply bind_ok; [simpl; rewrite Ht; reflexivity|].
    exact Hrun. }
  split; [exact Hlen|]. split; [|exact Hdb].
  intros Hne ->. simpl in Hlen.
  assert (0 < limit)%nat by (unfold limit; lia).
  destruct (t_rows t); [congruence | simpl in Hlen; lia].
Qed.

Lemma RandomEntries_count_witness :
  fst (SQL.RandomEntries More.engine More.pet (-4) More.kennel) = Ok [1%nat]
  ∧ fst (SQL.RandomEntries More.engine More.pet 2 More.kennel) = Ok [1%nat; 2%nat]
  ∧ fst (SQL.RandomEntries More.engine More.pet 10 More.kennel)
    = Ok [1%nat; 2%nat; 0%nat].
Proof.
  assert (Hs : bucket_sound More.kennel "Pet" (<[3 := 0%nat]> ∅)).
  { split; [reflexivity|]. intros z b Hz.
    destruct (decide (z = 3)) as [->|Hne].
    - rewrite lookup_insert_eq in Hz. injection Hz as <-. simpl. lia.
    - rewrite lookup_insert_ne in Hz by congruence. now rewrite lookup_empty in Hz. }
  destruct (RandomEntries_count More.engine More.kennel More.pet
              {| t_columns := ["name"; "owner"]; t_rows := More.pet_rows |}
              (-4) _ eq_refl Hs) as [items [st' [Hrun _]]].
  assert (Hi : fst (SQL.RandomEntries More.engine More.pet (-4) More.kennel) = Ok [1%nat])
    by (vm_compute; reflexivity).
  split; [|split; vm_compute; reflexivity].
  rewrite Hrun in Hi |- *. exact Hi.
Defined.

End RandomFacts.

(** ** Batches of fresh instances *)


Module BatchFacts.



End BatchFacts.

(** ** More on [Add] *)


Lemma column_values_missing (idict defaults : gmap string value)
    (cols : list (string * string)) (c : string * string) :
  c ∈ cols → idict !! fst c = None → defaults !! snd c = None →
  column_values idict defaults cols = Raise KeyError.
Proof.
  intros Hin Hf Hd. induction cols as [|c0 cols IH]; [now apply elem_of_nil in Hin|].
  simpl. destruct (column_value idict defaults c0) as [v|x] eqn:E.
  - apply elem_of_cons in Hin as [-> | Hin].
    + unfold column_value in E. rewrite Hf, Hd in E. discriminate.
    + now rewrite (IH Hin).
  - unfold column_value in E.
    destruct (idict !! c0.1); [discriminate|].
    destruct (defaults !! c0.2); [discriminate|]. now injection E as <-.
Qed.

Module AddEdgeFacts.



(** X10: where [Add] stops when the store is not ready for the kind.
    Without the table, the engine rejects the row count and [Add] raises
    before it has touched the instance.  With the table but without a
    bucket for the kind (the kind was never registered), [Add] raises
    [KeyError] after it has given the instance its key: nothing is cached
    and no [INSERT] is sent. *)
Theorem Add_on_unprepared_store (st st0 : store) (item : nat) (o : obj)
    (t : table) (commit : bool)
    (Ho : heap st !! item = Some o)
    (Ho0 : heap st0 !! item = Some o)
    (Hfresh : has_valid_dbid (o_dict o) = false)
    (Hnotable : db st0 !! k_tablename (o_class o) = None)
    (Ht : db st !! k_tablename (o_class o) = Some t)
    (Hnobucket : cache st !! k_name (o_class o) = None) :
  SQL.Add item commit st0
  = (Raise OperationalError,
     add_log (EvExecute ("select * from " +:+ k_tablename (o_class o)) []) st0)
  ∧ SQL.Add item commit st
    = (Raise KeyError,
       {| heap := <[item := with_dict
                              (<["dbid" := VInt (Z.of_nat (length (t_rows t)))]> (o_dict o))
                              o]> (heap st);
          cache := cache st; db := db st; type_default := type_default st;
          log := log st ++ [EvExecute ("select * from " +:+ k_tablename (o_class o)) []] |}).
Proof.
  split.
  - rewrite (Add_no_valid_dbid _ _ _ _ Ho0 Hfresh). unfold SQL.Add_fresh.
    eapply bind_ok; [exact (get_obj_run _ _ _ Ho0)|].
    erewrite bind_raise; [reflexivity|].
    unfold SQL.TableLength. eapply bind_ok; [reflexivity|].
    unfold Engine.select_all. simpl. now rewrite Hnotable.
  - rewrite (Add_no_valid_dbid _ _ _ _ Ho Hfresh). unfold SQL.Add_fresh.
    eapply bind_ok; [exact (get_obj_run _ _ _ Ho)|].
    eapply bind_ok; [exact (TableLength_run _ _ _ Ht)|].
    eapply bind_ok; [apply (setattr_run _ _ o); exact Ho|].
    erewrite bind_raise; [reflexivity|].
    unfold cache_store. simpl. now rewrite Hnobucket.
Qed.

Lemma Add_on_unprepared_store_witness :
  fst (SQL.Add 0%nat true (More.pet_store [Sample.alice] ∅ [])) = Raise OperationalError
  ∧ heap (snd (SQL.Add 0%nat true (More.pet_store [Sample.alice] ∅ []))) = [Sample.alice]
  ∧ fst (SQL.Add 0%nat true
           {| heap := [Sample.alice]; cache := ∅; db := Sample.tables [] [];
              type_default := TYPE_DEFAULT; log := [] |}) = Raise KeyError
  ∧ (fun oi => o_dict oi !! "dbid")
      <$> (heap (snd (SQL.Add 0%nat true
                        {| heap := [Sample.alice]; cache := ∅; db := Sample.tables [] [];
                           type_default := TYPE_DEFAULT; log := [] |})) !! 0%nat)
    = Some (Some (VInt 0)).
Proof.
  destruct (Add_on_unprepared_store
              {| heap := [Sample.alice]; cache := ∅; db := Sample.tables [] [];
                 type_default := TYPE_DEFAULT; log := [] |}
              (More.pet_store [Sample.alice] ∅ []) 0%nat Sample.alice
              {| t_columns := ["name"; "age"]; t_rows := [] |} true
              eq_refl eq_refl eq_refl ltac:(vm_compute; reflexivity) eq_refl
              ltac:(vm_compute; reflexivity)) as [H0 H1].
  rewrite H0, H1. repeat split.
Defined.

(** X11: a column whose field the instance lacks and whose storage type
    has no registered default makes [Add] raise [KeyError] while it builds
    the value row: by then the instance has its key and is cached, and no
    [INSERT] has been sent, so the table is unchanged. *)
Theorem Add_without_default (st : store) (item : nat) (o : obj)
    (bucket : gmap Z nat) (t : table) (commit : bool) (c : string * string)
    (Ho : heap st !! item = Some o)
    (Hfresh : has_valid_dbid (o_dict o) = false)
    (Hb : cache st !! k_name (o_class o) = Some bucket)
    (Ht : db st !! k_tablename (o_class o) = Some t)
    (Hc : c ∈ k_sql_columns (o_class o))
    (Hname : fst c ≠ "dbid")
    (Hfield : o_dict o !! fst c = None)
    (Hnodefault : type_default st !! snd c = None) :
  let n := Z.of_nat (length (t_rows t)) in
  SQL.Add item commit st
  = (Raise KeyError,
     {| heap := <[item := with_dict (<["dbid" := VInt n]> (o_dict o)) o]> (heap st);
        cache := <[k_name (o_class o) := <[n := item]> bucket]> (cache st);
        db := db st; type_default := type_default st;
        log := log st ++ [EvExecute ("select * from " +:+ k_tablename (o_class o)) []] |}).
Proof.
  intros n. rewrite (Add_no_valid_dbid _ _ _ _ Ho Hfresh). unfold SQL.Add_fresh.
  assert (Hlt : (item < length (heap st))%nat) by (eapply lookup_lt_Some; eauto).
  set (o1 := with_dict (<["dbid" := VInt n]> (o_dict o)) o).
  eapply bind_ok; [exact (get_obj_run _ _ _ Ho)|].
  eapply bind_ok; [exact (TableLength_run _ _ _ Ht)|].
  eapply bind_ok; [apply (setattr_run _ _ o); exact Ho|].
  eapply bind_ok; [apply (cache_store_run _ _ bucket); exact Hb|].
  assert (Ho1 : ∀ c0 d tdf lg,
            heap {| heap := <[item := o1]> (heap st); cache := c0; db := d;
                    type_default := tdf; log := lg |} !! item = Some o1).
  { intros. simpl. now apply list_lookup_insert_eq. }
  eapply bind_ok.
  { eapply getattr_run; [apply Ho1|]. simpl. apply lookup_insert_eq. }
  eapply bind_ok; [apply get_obj_run, Ho1|].
  erewrite bind_raise; [reflexivity|].
  simpl. rewrite (column_values_missing _ _ _ c Hc); [reflexivity| |exact Hnodefault].
  rewrite lookup_insert_ne; [exact Hfield | congruence].
Qed.

Lemma Add_without_default_witness :
  SQL.Add 0%nat true
    {| heap := [Sample.alice]; cache := Sample.buckets ∅ ∅; db := Sample.tables [] [];
       type_default := delete "integer" TYPE_DEFAULT; log := [] |}
  = (Raise KeyError,
     {| heap := [with_dict (<["dbid" := VInt 0]> (o_dict Sample.alice)) Sample.alice];
        cache := <["Person" := <[0 := 0%nat]> ∅]> (Sample.buckets ∅ ∅);
        db := Sample.tables [] [];
        type_default := delete "integer" TYPE_DEFAULT;
        log := [EvExecute "select * from person_table" []] |}).
Proof.
  exact (Add_without_default
           {| heap := [Sample.alice]; cache := Sample.buckets ∅ ∅; db := Sample.tables [] [];
              type_default := delete "integer" TYPE_DEFAULT; log := [] |}
           0%nat Sample.alice ∅ {| t_columns := ["name"; "age"]; t_rows := [] |} true
           ("age", "integer") eq_refl eq_refl eq_refl eq_refl
           ltac:(apply (bool_decide_unpack _); vm_compute; exact I)
           ltac:(discriminate) eq_refl eq_refl).
Defined.

End AddEdgeFacts.

(** ** More on [Update] and [UpdateList] *)




Module UpdateMoreFacts.



(** X13: on a kind without derived columns, [Update] of a keyed instance
    and [UpdateList] raise [IndexError] before they send any statement:
    both read the last derived column. *)
Theorem Update_needs_a_column (st : store) (item : nat) (o : obj) (dbid : value)
    (rest : list nat) (force_update commit : bool)
    (Ho : heap st !! item = Some o)
    (Hd : o_dict o !! "dbid" = Some dbid)
    (Hforce : k_immutable (o_class o) && negb force_update = false)
    (Hcols : k_sql_columns (o_class o) = []) :
  SQL.Update item force_update commit st = (Raise IndexError, st)
  ∧ SQL.UpdateList (item :: rest) force_update commit st = (Raise IndexError, st).
Proof.
  split.
  - unfold SQL.Update.
    eapply bind_ok; [exact (get_obj_run _ _ _ Ho)|].
    simpl. rewrite Hd, Hforce, Hcols. reflexivity.
  - unfold SQL.UpdateList.
    eapply bind_ok; [exact (get_obj_run _ _ _ Ho)|].
    simpl. rewrite Hforce, Hcols. reflexivity.
Qed.

Lemma Update_needs_a_column_witness :
  SQL.Update 0%nat false true More.tag_store = (Raise IndexError, More.tag_store)
  ∧ SQL.UpdateList [0%nat] false true More.tag_store
    = (Raise IndexError, More.tag_store).
Proof.
  exact (Update_needs_a_column More.tag_store 0%nat
           {| o_class := More.tag; o_dict := <["dbid" := VInt 0]> ∅;
              o_refs := ∅; o_lists := [] |}
           (VInt 0) [] false true eq_refl eq_refl eq_refl eq_refl).
Defined.

(** X14: [UpdateList] looks at the immutability flag of the first item's
    kind before it looks at any key.  On an immutable kind without
    [force_update] it prints the warning and does nothing else, whatever
    the items are; an item without a key is therefore not inserted, while
    [Update] on that item alone inserts it. *)
Theorem UpdateList_immutable_is_noop (st : store) (first : nat) (rest : list nat)
    (o : obj) (commit : bool)
    (Ho : heap st !! first = Some o)
    (Him : k_immutable (o_class o) = true) :
  SQL.UpdateList (first :: rest) false commit st
  = (Ok tt, add_log (EvPrint ("WARNING: Can't update immutable type "
                                +:+ k_name (o_class o) +:+ "!")) st)
  ∧ (o_dict o !! "dbid" = None →
     SQL.Update first false commit st = SQL.Add first commit st).
Proof.
  split.
  - unfold SQL.UpdateList.
    eapply bind_ok; [exact (get_obj_run _ _ _ Ho)|].
    simpl. rewrite Him. reflexivity.
  - intros Hd. rewrite (Update_without_dbid _ _ _ _ _ Ho Hd).
    symmetry. apply (Add_no_valid_dbid _ _ _ _ Ho).
    unfold has_valid_dbid. now rewrite Hd.
Qed.

Lemma UpdateList_immutable_is_noop_witness :
  SQL.UpdateList [3%nat; 0%nat] false true Sample.empty_store
  = (Ok tt, add_log (EvPrint "WARNING: Can't update immutable type Medal!")
              Sample.empty_store)
  ∧ t_rows <$> (db (snd (SQL.Update 3%nat false true Sample.empty_store)) !! "medal_table")
    = Some [(0, [VText "gold"])].
Proof.
  destruct (UpdateList_immutable_is_noop Sample.empty_store 3%nat [0%nat] Sample.gold
              true eq_refl eq_refl) as [Hlist Hone].
  split; [exact Hlist|].
  rewrite (Hone eq_refl). vm_compute. reflexivity.
Defined.

End UpdateMoreFacts.

Module UpdateListFacts.



End UpdateListFacts.

(** ** More on the query builder *)

Lemma bindable_is_frag (e : Query.expr) : bindable e → Query.is_frag e.
Proof. destruct e; simpl; tauto. Qed.

Lemma bindable_count (e : Query.expr) :
  bindable e → Engine.placeholders (Query.frag_text e) = length (Query.frag_vals e).
Proof. destruct e; simpl; tauto. Qed.

Lemma placeholders_joined (chain_str : string) (es : list Query.expr) :
  Engine.placeholders chain_str = 0%nat →
  Forall bindable es →
  Engine.placeholders (Query.joined chain_str (map Query.frag_text es))
  = length (concat (map Query.frag_vals es)).
Proof.
  intros Hsep Hall. induction Hall as [|e es He Hes IH]; [reflexivity|].
  change (map Query.frag_text (e :: es))
    with (Query.frag_text e :: map Query.frag_text es).
  change (concat (map Query.frag_vals (e :: es)))
    with (Query.frag_vals e ++ concat (map Query.frag_vals es)).
  rewrite length_app, <- IH, <- (bindable_count e He).
  destruct es as [|e' es'].
  - simpl Query.joined. rewrite !placeholders_app. simpl. lia.
  - change (Query.joined chain_str (Query.frag_text e :: map Query.frag_text (e' :: es')))
      with ("(" +:+ Query.frag_text e +:+ ")" +:+ chain_str
            +:+ Query.joined chain_str (map Query.frag_text (e' :: es'))).
    rewrite !placeholders_app, Hsep. simpl. lia.
Qed.

Lemma ChainExprs_bindable (chain_str : string) (es : list Query.expr) :
  Engine.placeholders chain_str = 0%nat →
  es ≠ [] → Forall bindable es →
  ∃ e, Query.ChainExprs es chain_str = Ok e ∧ bindable e.
Proof.
  intros Hsep Hne Hall.
  assert (Hfrag : Forall Query.is_frag es)
    by (eapply Forall_impl; [exact Hall | exact bindable_is_frag]).
  eexists. split.
  - exact (QueryFacts.ChainExprs_frags chain_str es Hne Hfrag).
  - simpl. exact (placeholders_joined chain_str es Hsep Hall).
Qed.

Lemma order_fragment_item0 (order : bool * string) :
  ∃ text, Query.item0 (order_fragment order) = Ok text.
Proof.
  destruct order as [[|] [|a v]]; eexists; reflexivity.
Qed.

Lemma order_fragment_extend (order : bool * string) (val_tup : list value) :
  Query.extend val_tup (order_fragment order) = Raise TypeError.
Proof.
  destruct order as [[|] [|a [|b v]]]; reflexivity.
Qed.

Module BuilderFacts.

Import Query.

(** X16: binding consistency is kept by the whole predicate builder.  A
    comparison primitive on a column name without [?] pairs its text with
    as many values as the text has [?]; and from fragments with that
    property, [Not], [And] and [Or] (on a non-empty list) return a fragment
    with it. *)
Theorem builder_keeps_bindable (name : string) (v v' : value)
    (es : list expr)
    (Hname : Engine.placeholders name = 0%nat)
    (Hne : es ≠ [])
    (Hall : Forall bindable es) :
  Forall bindable
    [Equals name v; NotEquals name v; LessThan name v; LessThanEquals name v;
     GreaterThan name v; GreaterThanEquals name v; Between name v v'; Like name v]
  ∧ Forall (fun e => ∃ e', Not e = Ok e' ∧ bindable e') es
  ∧ (∃ e, And es = Ok e ∧ bindable e)
  ∧ (∃ e, Or es = Ok e ∧ bindable e).
Proof.
  split; [|split; [|split]].
  - repeat apply Forall_cons_2; try apply Forall_nil_2;
      simpl; rewrite placeholders_app, Hname; reflexivity.
  - eapply Forall_impl; [exact Hall|].
    intros [text vals| |] Hb; simpl in Hb; try contradiction.
    eexists. split; [reflexivity|].
    simpl. rewrite !placeholders_app, Hb. simpl. lia.
  - exact (ChainExprs_bindable " and " es eq_refl Hne Hall).
  - exact (ChainExprs_bindable " or " es eq_refl Hne Hall).
Qed.

Lemma builder_keeps_bindable_witness :
  Forall bindable
    [Equals "age" (VInt 3); NotEquals "age" (VInt 3); LessThan "age" (VInt 3);
     LessThanEquals "age" (VInt 3); GreaterThan "age" (VInt 3);
     GreaterThanEquals "age" (VInt 3); Between "age" (VInt 3) (VInt 9);
     Like "age" (VInt 3)]
  ∧ Forall (fun e => ∃ e', Not e = Ok e' ∧ bindable e')
      [Between "age" (VInt 3) (VInt 9); Like "name" (VText "A%")]
  ∧ (∃ e, And [Between "age" (VInt 3) (VInt 9); Like "name" (VText "A%")] = Ok e
          ∧ bindable e)
  ∧ (∃ e, Or [Between "age" (VInt 3) (VInt 9); Like "name" (VText "A%")] = Ok e
          ∧ bindable e).
Proof.
  apply (builder_keeps_bindable "age" (VInt 3) (VInt 9)
           [Between "age" (VInt 3) (VInt 9); Like "name" (VText "A%")]).
  - reflexivity.
  - discriminate.
  - apply Forall_cons_2; [reflexivity|].
    apply Forall_cons_2; [reflexivity|]. apply Forall_nil_2.
Defined.

(** X17: [OrderChain] fails on every non-empty list of ordering fragments,
    whatever the column names and directions: an ordering fragment is a
    plain [str], and the chain stops with [TypeError] at the first one,
    when it adds the fragment's second character to its value tuple. *)
Theorem OrderChain_always_raises (orders : list (bool * string))
    (Hne : orders ≠ []) :
  OrderChain (map order_fragment orders) = Raise TypeError.
Proof.
  destruct orders as [|o rest]; [contradiction|].
  unfold OrderChain, ChainExprs.
  destruct rest as [|o' rest'].
  - simpl.
    destruct (order_fragment_item0 o) as [text ->].
    rewrite order_fragment_extend. reflexivity.
  - rewrite length_map.
    change (length (o :: o' :: rest') - 1)%nat with (S (length rest')).
    change (seq 0 (S (length rest'))) with (0%nat :: seq 1 (length rest')).
    simpl chain_loop.
    destruct (order_fragment_item0 o) as [text ->].
    rewrite order_fragment_extend. reflexivity.
Qed.

Lemma OrderChain_always_raises_witness :
  OrderChain (map order_fragment [(true, "name"); (false, "age")]) = Raise TypeError.
Proof.
  apply (OrderChain_always_raises [(true, "name"); (false, "age")]).
  discriminate.
Defined.

End BuilderFacts.

(** ** Schema derivation *)

Module SchemaLemmas.

Import Schema.

Lemma append_if_absent_prefix (c : string * string) (cols : list (string * string)) :
  cols `prefix_of` append_if_absent c cols.
Proof.
  unfold append_if_absent. case_bool_decide.
  - reflexivity.
  - now exists [c].
Qed.

Lemma append_if_absent_elem (c : string * string) (cols : list (string * string)) :
  c ∈ append_if_absent c cols.
Proof.
  unfold append_if_absent. case_bool_decide as Hin; [exact Hin|].
  apply elem_of_app. right. apply list_elem_of_singleton. reflexivity.
Qed.

Lemma append_if_absent_present (c : string * string) (cols : list (string * string)) :
  c ∈ cols → append_if_absent c cols = cols.
Proof.
  intros Hin. unfold append_if_absent. now rewrite bool_decide_eq_true_2.
Qed.

Lemma columns_of_set_columns (n n' : string) (cols : list (string * string))
    (cs : classes) :
  columns_of (set_columns n cols cs) n'
  = if decide (n = n') then cols else columns_of cs n'.
Proof.
  unfold columns_of, set_columns. simpl.
  destruct (decide (n = n')) as [->|Hne].
  - now rewrite lookup_insert_eq.
  - now rewrite lookup_insert_ne.
Qed.

Lemma RegisterList_columns (p c v : string) (cs : classes) (n : string) :
  columns_of (RegisterList p c v cs) n
  = if decide (c = n)
    then append_if_absent (list_order_column p v)
           (append_if_absent (list_id_column p v) (columns_of cs c))
    else columns_of cs n.
Proof. unfold RegisterList. now rewrite columns_of_set_columns. Qed.

Lemma RegisterList_prefix (p c v : string) (cs : classes) (n : string) :
  columns_of cs n `prefix_of` columns_of (RegisterList p c v cs) n.
Proof.
  rewrite RegisterList_columns. destruct (decide (c = n)) as [->|]; [|reflexivity].
  etransitivity; apply append_if_absent_prefix.
Qed.

Lemma RegisterList_elems (p c v : string) (cs : classes) :
  list_id_column p v ∈ columns_of (RegisterList p c v cs) c
  ∧ list_order_column p v ∈ columns_of (RegisterList p c v cs) c.
Proof.
  rewrite RegisterList_columns, decide_True by reflexivity. split.
  - eapply elem_of_prefix; [|apply append_if_absent_prefix].
    apply append_if_absent_elem.
  - apply append_if_absent_elem.
Qed.

Lemma RegisterList_present_columns (p c v : string) (cs : classes) :
  list_id_column p v ∈ columns_of cs c →
  list_order_column p v ∈ columns_of cs c →
  sql_columns (RegisterList p c v cs) = sql_columns cs.
Proof.
  intros Hid Horder. unfold RegisterList.
  fold (list_id_column p v). fold (list_order_column p v).
  rewrite (append_if_absent_present _ _ Hid), (append_if_absent_present _ _ Horder).
  simpl. apply insert_id.
  unfold columns_of in *. destruct (sql_columns cs !! c) as [l|]; [reflexivity|].
  simpl in Hid. now apply elem_of_nil in Hid.
Qed.


End SchemaLemmas.

Module ListRegistrationFacts.

Import Schema SchemaLemmas.


End ListRegistrationFacts.

Module ColumnLemmas.

Import Schema SchemaLemmas.

Lemma MakeColumns_loop_step (table : gmap string string) (class_name : string)
    (field : string * pytype) (rest : list (string * pytype)) (va : option string)
    (cols : list (string * string)) (cs : classes) :
  readable table (snd field) →
  MakeColumns_loop table class_name (field :: rest) va cols cs
  = MakeColumns_loop table class_name rest (bound_after [field] va)
      (cols ++ omap (column_of table) [field]) (after_field table class_name cs field).
Proof.
  destruct field as [var_name var_type]. intros Hread.
  unfold after_field, column_of, list_field, bound_after.
  simpl. simpl in Hread.
  destruct var_type as [name sql_type|origin args].
  - destruct (table !! name) as [st|] eqn:Hname; [reflexivity|].
    destruct sql_type as [st|]; [reflexivity|].
    destruct Hread as [[? Hsome]|[[? Hsome]|Hne]]; [congruence|discriminate|].
    apply String.eqb_neq in Hne. rewrite Hne.
    now rewrite app_nil_r.
  - destruct origin as [[oname osql]|]; [|contradiction].
    destruct args as [|a args']; [contradiction|].
    destruct (table !! "") as [st|] eqn:Hempty; [reflexivity|].
    destruct osql as [st|]; [reflexivity|].
    destruct (String.eqb oname "List"); now rewrite app_nil_r.
Qed.

Lemma MakeColumns_loop_app (table : gmap string string) (class_name : string)
    (pre rest : list (string * pytype)) (va : option string)
    (cols : list (string * string)) (cs : classes) :
  Forall (fun field => readable table (snd field)) pre →
  MakeColumns_loop table class_name (pre ++ rest) va cols cs
  = MakeColumns_loop table class_name rest (bound_after pre va)
      (cols ++ omap (column_of table) pre) (after_fields table class_name pre cs).
Proof.
  intros Hall. revert va cols cs.
  induction Hall as [|field pre Hread _ IH]; intros va cols cs.
  - simpl. now rewrite app_nil_r.
  - change ((field :: pre) ++ rest) with (field :: (pre ++ rest)).
    rewrite (MakeColumns_loop_step _ _ _ _ _ _ _ Hread), IH.
    change (field :: pre) with ([field] ++ pre).
    unfold bound_after, after_fields.
    now rewrite omap_app, !foldl_app, <- app_assoc.
Qed.

Lemma MakeColumns_readable (table : gmap string string) (data_class : decl)
    (cs : classes) :
  Forall (fun field => readable table (snd field)) (d_annotations data_class) →
  MakeColumns table data_class cs
  = (inl (omap (column_of table) (d_annotations data_class)),
     after_fields table (d_name data_class) (d_annotations data_class) cs).
Proof.
  intros Hall. unfold MakeColumns.
  rewrite <- (app_nil_r (d_annotations data_class)) at 1.
  now rewrite MakeColumns_loop_app.
Qed.

Lemma after_fields_cons (table : gmap string string) (class_name : string)
    (field : string * pytype) (rest : list (string * pytype)) (cs : classes) :
  after_fields table class_name (field :: rest) cs
  = after_fields table class_name rest (after_field table class_name cs field).
Proof. reflexivity. Qed.

Lemma after_field_frame (table : gmap string string) (class_name : string)
    (cs : classes) (field : string * pytype) :
  tables (after_field table class_name cs field) = tables cs
  ∧ tablenames (after_field table class_name cs field) = tablenames cs
  ∧ buckets (after_field table class_name cs field) = buckets cs.
Proof.
  unfold after_field.
  destruct (column_of table field); [tauto|].
  destruct (list_field table field) as [[v c]|]; simpl; tauto.
Qed.

Lemma after_field_prefix (table : gmap string string) (class_name : string)
    (cs : classes) (field : string * pytype) (n : string) :
  columns_of cs n `prefix_of` columns_of (after_field table class_name cs field) n.
Proof.
  unfold after_field.
  destruct (column_of table field); [reflexivity|].
  destruct (list_field table field) as [[v c]|]; [|reflexivity].
  apply RegisterList_prefix.
Qed.

Lemma after_fields_frame (table : gmap string string) (class_name : string)
    (annotations : list (string * pytype)) (cs : classes) :
  tables (after_fields table class_name annotations cs) = tables cs
  ∧ tablenames (after_fields table class_name annotations cs) = tablenames cs
  ∧ buckets (after_fields table class_name annotations cs) = buckets cs.
Proof.
  revert cs. induction annotations as [|f rest IH]; intros cs; [simpl; tauto|].
  rewrite after_fields_cons.
  destruct (IH (after_field table class_name cs f)) as (-> & -> & ->).
  apply after_field_frame.
Qed.

Lemma after_fields_prefix (table : gmap string string) (class_name : string)
    (annotations : list (string * pytype)) (cs : classes) (n : string) :
  columns_of cs n `prefix_of` columns_of (after_fields table class_name annotations cs) n.
Proof.
  revert cs. induction annotations as [|f rest IH]; intros cs; [reflexivity|].
  rewrite after_fields_cons.
  etransitivity; [apply (after_field_prefix table class_name cs f)|apply IH].
Qed.

Lemma after_fields_lists (table : gmap string string) (class_name : string)
    (annotations : list (string * pytype)) (cs : classes)
    (field : string * pytype) (var_name child : string) :
  field ∈ annotations →
  column_of table field = None →
  list_field table field = Some (var_name, child) →
  list_id_column class_name var_name
    ∈ columns_of (after_fields table class_name annotations cs) child
  ∧ list_order_column class_name var_name
    ∈ columns_of (after_fields table class_name annotations cs) child.
Proof.
  intros Hin Hcol Hlist. revert cs.
  induction annotations as [|f rest IH]; intros cs; [now apply elem_of_nil in Hin|].
  rewrite after_fields_cons.
  apply elem_of_cons in Hin as [<-|Hin]; [|now apply IH].
  assert (Hstep : after_field table class_name cs field
                  = RegisterList class_name child var_name cs)
    by (unfold after_field; now rewrite Hcol, Hlist).
  rewrite Hstep.
  destruct (RegisterList_elems class_name child var_name cs) as [Hid Horder].
  split; (eapply elem_of_prefix; [|apply after_fields_prefix]); assumption.
Qed.

Lemma after_fields_registered (table : gmap string string) (class_name : string)
    (annotations : list (string * pytype)) (cs : classes) :
  (∀ field var_name child,
     field ∈ annotations → column_of table field = None →
     list_field table field = Some (var_name, child) →
     list_id_column class_name var_name ∈ columns_of cs child
     ∧ list_order_column class_name var_name ∈ columns_of cs child) →
  sql_columns (after_fields table class_name annotations cs) = sql_columns cs.
Proof.
  revert cs. induction annotations as [|f rest IH]; intros cs Hreg; [reflexivity|].
  rewrite after_fields_cons.
  assert (Hstep : sql_columns (after_field table class_name cs f) = sql_columns cs).
  { unfold after_field.
    destruct (column_of table f) eqn:Hcol; [reflexivity|].
    destruct (list_field table f) as [[v c]|] eqn:Hlist; [|reflexivity].
    destruct (Hreg f v c) as [Hid Horder]; [apply elem_of_cons; now left|assumption..|].
    now apply RegisterList_present_columns. }
  rewrite IH; [exact Hstep|].
  intros field v c Hin Hcol Hlist. unfold columns_of. rewrite Hstep.
  apply (Hreg field v c); [apply elem_of_cons; now right|assumption..].
Qed.

Lemma list_field_gives_no_column (table : gmap string string)
    (field : string * pytype) (var_name child : string) :
  list_field table field = Some (var_name, child) → column_of table field = None.
Proof.
  destruct field as [f [name s|[[oname [st|]]|] [|a args]]];
    unfold list_field, column_of; simpl; try discriminate.
  destruct (table !! "") as [st|]; [discriminate|]. reflexivity.
Qed.

End ColumnLemmas.

Module ColumnFacts.

Import Schema SchemaLemmas ColumnLemmas.

(** X19: on annotations it can read (objects with a name other than a bare
    [List], or parameterised types with an origin and an argument),
    [MakeColumns] does not fail and returns, in declaration order, one
    column (field name, storage type) for each field whose type is in
    [TYPE_TABLE] or carries [__sql_type__], and none for the other fields.
    It leaves the table list, the table names and the cache alone, keeps
    every class's columns as a prefix of its columns afterwards, and the
    element class of every list field has the list's two columns. *)
Theorem MakeColumns_derives_columns (table : gmap string string)
    (data_class : decl) (cs : classes)
    (Hread : Forall (fun field => readable table (snd field))
               (d_annotations data_class)) :
  ∃ cs', MakeColumns table data_class cs
         = (inl (omap (column_of table) (d_annotations data_class)), cs')
    ∧ tables cs' = tables cs
    ∧ tablenames cs' = tablenames cs
    ∧ buckets cs' = buckets cs
    ∧ (∀ n, columns_of cs n `prefix_of` columns_of cs' n)
    ∧ (∀ field var_name child,
         field ∈ d_annotations data_class →
         list_field table field = Some (var_name, child) →
         list_id_column (d_name data_class) var_name ∈ columns_of cs' child
         ∧ list_order_column (d_name data_class) var_name ∈ columns_of cs' child).
Proof.
  exists (after_fields table (d_name data_class) (d_annotations data_class) cs).
  split; [exact (MakeColumns_readable table data_class cs Hread)|].
  destruct (after_fields_frame table (d_name data_class)
              (d_annotations data_class) cs) as (Ht & Hn & Hb).
  split; [exact Ht|]. split; [exact Hn|]. split; [exact Hb|]. split.
  - intros n. apply after_fields_prefix.
  - intros field v child Hin Hlist.
    apply (after_fields_lists table _ _ cs field v child Hin);
      [exact (list_field_gives_no_column _ _ _ _ Hlist)|exact Hlist].
Qed.

Lemma MakeColumns_derives_columns_witness :
  let person :=
    {| d_name := "Person";
       d_annotations :=
         [("name", PyClass "str" None);
          ("pets", PyAlias (Some ("List", None)) ["Pet"]);
          ("shape", PyClass "Shape" (Some "shape"));
          ("owner", PyAlias (Some ("Reference", Some "integer")) ["Person"]);
          ("notes", PyClass "dict" None);
          ("age", PyClass "int" None)];
       d_tablename := None |} in
  ∃ cs', MakeColumns TYPE_TABLE person empty_classes
         = (inl [("name", "text"); ("shape", "shape"); ("owner", "integer");
                 ("age", "integer")], cs')
    ∧ tables cs' = []
    ∧ tablenames cs' = ∅
    ∧ buckets cs' = ∅
    ∧ (∀ n, columns_of empty_classes n `prefix_of` columns_of cs' n)
    ∧ (∀ field var_name child,
         field ∈ d_annotations person →
         list_field TYPE_TABLE field = Some (var_name, child) →
         list_id_column "Person" var_name ∈ columns_of cs' child
         ∧ list_order_column "Person" var_name ∈ columns_of cs' child).
Proof.
  intros person.
  apply (MakeColumns_derives_columns TYPE_TABLE person empty_classes).
  unfold person. simpl.
  repeat (apply Forall_cons_2; [simpl|]); try apply Forall_nil_2; try exact I.
  - left. now exists "text".
  - right. left. now exists "shape".
  - right. right. discriminate.
  - left. now exists "integer".
Defined.

(** X20: a field annotated with the bare [List] (an object named [List]
    that is no registered type and has no [__sql_type__]) takes its element
    class from the local [var_args], which only a parameterised annotation
    binds.  When no earlier field was parameterised, [MakeColumns] stops
    with [UnboundLocalError], after the registrations of the earlier
    fields; otherwise the list is registered on the first argument of the
    last parameterised field before it. *)
Theorem MakeColumns_bare_List (table : gmap string string)
    (class_name var_name : string) (tn : option string)
    (pre post : list (string * pytype)) (cs : classes)
    (HList : table !! "List" = None)
    (Hpre : Forall (fun field => readable table (snd field)) pre)
    (Hpost : Forall (fun field => readable table (snd field)) post) :
  MakeColumns table
    {| d_name := class_name;
       d_annotations := pre ++ (var_name, PyClass "List" None) :: post;
       d_tablename := tn |} cs
  = match bound_after pre None with
    | None => (inr SchemaUnboundLocalError, after_fields table class_name pre cs)
    | Some child =>
        (inl (omap (column_of table) (pre ++ post)),
         after_fields table class_name post
           (RegisterList class_name child var_name
              (after_fields table class_name pre cs)))
    end.
Proof.
  unfold MakeColumns. simpl d_name. simpl d_annotations.
  rewrite (MakeColumns_loop_app _ _ _ _ _ _ _ Hpre).
  simpl MakeColumns_loop. rewrite HList. simpl.
  destruct (bound_after pre None) as [child|]; [|reflexivity].
  rewrite <- (app_nil_r post) at 1.
  rewrite (MakeColumns_loop_app _ _ _ _ _ _ _ Hpost).
  simpl. now rewrite omap_app.
Qed.

Lemma MakeColumns_bare_List_witness :
  MakeColumns TYPE_TABLE
    {| d_name := "Person";
       d_annotations :=
         [("owner", PyAlias (Some ("Reference", Some "integer")) ["Person"])]
         ++ ("pets", PyClass "List" None) :: [("age", PyClass "int" None)];
       d_tablename := None |} empty_classes
  = match bound_after
            [("owner", PyAlias (Some ("Reference", Some "integer")) ["Person"])] None with
    | None => (inr SchemaUnboundLocalError,
               after_fields TYPE_TABLE "Person"
                 [("owner", PyAlias (Some ("Reference", Some "integer")) ["Person"])]
                 empty_classes)
    | Some child =>
        (inl (omap (column_of TYPE_TABLE)
                ([("owner", PyAlias (Some ("Reference", Some "integer")) ["Person"])]
                 ++ [("age", PyClass "int" None)])),
         after_fields TYPE_TABLE "Person" [("age", PyClass "int" None)]
           (RegisterList "Person" child "pets"
              (after_fields TYPE_TABLE "Person"
                 [("owner", PyAlias (Some ("Reference", Some "integer")) ["Person"])]
                 empty_classes)))
    end.
Proof.
  apply (MakeColumns_bare_List TYPE_TABLE "Person" "pets" None
           [("owner", PyAlias (Some ("Reference", Some "integer")) ["Person"])]
           [("age", PyClass "int" None)] empty_classes).
  - reflexivity.
  - apply Forall_cons_2; [exact I|apply Forall_nil_2].
  - apply Forall_cons_2; [|apply Forall_nil_2]. left. now exists "integer".
Defined.

(** X21: after [RegisterTypeConversion] for a class, a field annotated
    with that class gives a column whose storage type is the class name in
    lower case, and [Add] binds the registered default for such a column
    when the instance lacks the field.  The entries of the other type names
    and of the other storage types are as before; the default of a storage
    type that was already known is replaced. *)
Theorem registered_type_is_stored (type_name : string) (default : value)
    (reg : registry) (class_name field : string) (sql_type tn : option string)
    (cs : classes) (idict : gmap string value)
    (Hmissing : idict !! field = None) :
  let reg' := RegisterTypeConversion type_name default reg in
  MakeColumns (type_table reg')
    {| d_name := class_name; d_annotations := [(field, PyClass type_name sql_type)];
       d_tablename := tn |} cs
  = (inl [(field, lower type_name)], cs)
  ∧ column_value idict (type_defaults reg') (field, lower type_name) = Ok default
  ∧ (∀ n, n ≠ type_name → type_table reg' !! n = type_table reg !! n)
  ∧ (∀ s, s ≠ lower type_name → type_defaults reg' !! s = type_defaults reg !! s).
Proof.
  intros reg'. unfold reg', RegisterTypeConversion. simpl.
  split; [|split; [|split]].
  - unfold MakeColumns. simpl. now rewrite lookup_insert_eq.
  - unfold column_value. simpl. now rewrite Hmissing, lookup_insert_eq.
  - intros n Hn. now rewrite lookup_insert_ne.
  - intros s Hs. now rewrite lookup_insert_ne.
Qed.

Lemma registered_type_is_stored_witness :
  let reg' := RegisterTypeConversion "Integer" (VInt 0) seed_registry in
  MakeColumns (type_table reg')
    {| d_name := "Person"; d_annotations := [("age", PyClass "Integer" None)];
       d_tablename := None |} empty_classes
  = (inl [("age", lower "Integer")], empty_classes)
  ∧ column_value ∅ (type_defaults reg') ("age", lower "Integer") = Ok (VInt 0)
  ∧ (∀ n, n ≠ "Integer" → type_table reg' !! n = type_table seed_registry !! n)
  ∧ (∀ s, s ≠ lower "Integer"
          → type_defaults reg' !! s = type_defaults seed_registry !! s).
Proof.
  apply (registered_type_is_stored "Integer" (VInt 0) seed_registry "Person" "age"
           None None empty_classes ∅).
  vm_compute. reflexivity.
Defined.

End ColumnFacts.

Module RegistrationLemmas.

Import Schema SchemaLemmas ColumnLemmas.

Lemma register_one_readable (table : gmap string string) (data_class : decl)
    (cs : classes) :
  Forall (fun field => readable table (snd field)) (d_annotations data_class) →
  register_one table data_class cs = (inl tt, registered table data_class cs).
Proof.
  intros Hread. unfold register_one, registered, prepared.
  rewrite (MakeColumns_readable _ _ _ Hread).
  match goal with |- context [tablename_of ?c data_class] =>
    destruct (tablename_of c data_class) end; reflexivity.
Qed.

Lemma prepared_frame (data_class : decl) (cs : classes) :
  tables (prepared data_class cs) = tables cs
  ∧ tablenames (prepared data_class cs) = tablenames cs
  ∧ buckets (prepared data_class cs) = <[d_name data_class := ∅]> (buckets cs).
Proof.
  unfold prepared. simpl.
  destruct (sql_columns cs !! d_name data_class); simpl; tauto.
Qed.

Lemma prepared_columns (data_class : decl) (cs : classes) (n : string) :
  columns_of (prepared data_class cs) n = columns_of cs n.
Proof.
  unfold prepared. simpl.
  destruct (sql_columns cs !! d_name data_class) as [l|] eqn:Hl; [reflexivity|].
  rewrite columns_of_set_columns.
  destruct (decide (d_name data_class = n)) as [<-|]; [|reflexivity].
  unfold columns_of. simpl. now rewrite Hl.
Qed.

Lemma prepared_has_columns (data_class : decl) (cs : classes) :
  is_Some (sql_columns cs !! d_name data_class) →
  sql_columns (prepared data_class cs) = sql_columns cs.
Proof.
  intros [l Hl]. unfold prepared. simpl. now rewrite Hl.
Qed.

Lemma tablename_of_frame (cs cs' : classes) (data_class : decl) :
  tablenames cs' = tablenames cs →
  tablename_of cs' data_class = tablename_of cs data_class.
Proof. intros H. unfold tablename_of. now rewrite H. Qed.

(** The state before the table name is initialised. *)
Lemma registered_split (table : gmap string string) (data_class : decl)
    (cs : classes) :
  let cs3 := after_fields table (d_name data_class) (d_annotations data_class)
               (prepared data_class cs) in
  let cs4 := set_columns (d_name data_class)
               (columns_of cs3 (d_name data_class)
                ++ omap (column_of table) (d_annotations data_class)) cs3 in
  tables (registered table data_class cs) = tables cs
  ∧ buckets (registered table data_class cs) = <[d_name data_class := ∅]> (buckets cs)
  ∧ sql_columns (registered table data_class cs) = sql_columns cs4
  ∧ tablenames (registered table data_class cs)
    = match tablename_of cs data_class with
      | Some _ => tablenames cs
      | None => <[d_name data_class := default_tablename (d_name data_class)]>
                  (tablenames cs)
      end.
Proof.
  intros cs3 cs4.
  destruct (prepared_frame data_class cs) as (Ht & Hn & Hb).
  destruct (after_fields_frame table (d_name data_class) (d_annotations data_class)
              (prepared data_class cs)) as (Ht' & Hn' & Hb').
  fold cs3 in Ht', Hn', Hb'.
  assert (Hname : tablename_of cs4 data_class = tablename_of cs data_class).
  { apply tablename_of_frame. unfold cs4. simpl. now rewrite Hn', Hn. }
  unfold registered. fold cs3. fold cs4. rewrite Hname.
  destruct (tablename_of cs data_class); simpl; rewrite Ht', Ht, Hb', Hb, Hn', Hn; tauto.
Qed.

Lemma registered_columns (table : gmap string string) (data_class : decl)
    (cs : classes) (n : string) :
  columns_of (registered table data_class cs) n
  = let cs3 := after_fields table (d_name data_class) (d_annotations data_class)
                 (prepared data_class cs) in
    if decide (d_name data_class = n)
    then columns_of cs3 n ++ omap (column_of table) (d_annotations data_class)
    else columns_of cs3 n.
Proof.
  destruct (registered_split table data_class cs) as (_ & _ & Hc & _).
  unfold columns_of at 1. rewrite Hc.
  fold (columns_of
          (set_columns (d_name data_class)
             (columns_of (after_fields table (d_name data_class)
                            (d_annotations data_class) (prepared data_class cs))
                (d_name data_class)
              ++ omap (column_of table) (d_annotations data_class))
             (after_fields table (d_name data_class) (d_annotations data_class)
                (prepared data_class cs))) n).
  rewrite columns_of_set_columns. simpl.
  destruct (decide (d_name data_class = n)) as [<-|]; reflexivity.
Qed.

Lemma registered_prefix (table : gmap string string) (data_class : decl)
    (cs : classes) (n : string) :
  columns_of cs n `prefix_of` columns_of (registered table data_class cs) n.
Proof.
  rewrite registered_columns. simpl.
  rewrite <- (prepared_columns data_class cs n).
  destruct (decide (d_name data_class = n)) as [_|_].
  - etransitivity; [apply after_fields_prefix|]. now apply prefix_app_r.
  - apply after_fields_prefix.
Qed.

Lemma registered_own (table : gmap string string) (data_class : decl)
    (cs : classes) (c : string * string) :
  c ∈ omap (column_of table) (d_annotations data_class) →
  c ∈ columns_of (registered table data_class cs) (d_name data_class).
Proof.
  intros Hc. rewrite registered_columns. simpl.
  rewrite decide_True by reflexivity. apply elem_of_app. now right.
Qed.

Lemma registered_lists (table : gmap string string) (data_class : decl)
    (cs : classes) (field : string * pytype) (var_name child : string) :
  field ∈ d_annotations data_class →
  list_field table field = Some (var_name, child) →
  list_id_column (d_name data_class) var_name
    ∈ columns_of (registered table data_class cs) child
  ∧ list_order_column (d_name data_class) var_name
    ∈ columns_of (registered table data_class cs) child.
Proof.
  intros Hin Hlist.
  destruct (after_fields_lists table (d_name data_class) (d_annotations data_class)
              (prepared data_class cs) field var_name child Hin
              (list_field_gives_no_column _ _ _ _ Hlist) Hlist) as [Hid Horder].
  rewrite registered_columns. simpl.
  destruct (decide (d_name data_class = child)) as [_|_].
  - split; apply elem_of_app; now left.
  - now split.
Qed.

Lemma registered_again (table : gmap string string) (data_class : decl)
    (cs : classes) :
  is_Some (sql_columns cs !! d_name data_class) →
  (∀ field var_name child,
     field ∈ d_annotations data_class →
     list_field table field = Some (var_name, child) →
     list_id_column (d_name data_class) var_name ∈ columns_of cs child
     ∧ list_order_column (d_name data_class) var_name ∈ columns_of cs child) →
  columns_of (registered table data_class cs) (d_name data_class)
  = columns_of cs (d_name data_class)
    ++ omap (column_of table) (d_annotations data_class).
Proof.
  intros Hsome Hlists.
  rewrite registered_columns. simpl. rewrite decide_True by reflexivity.
  f_equal. unfold columns_of.
  rewrite after_fields_registered.
  - now rewrite prepared_has_columns.
  - intros field v child Hin _ Hlist. rewrite !prepared_columns.
    now apply (Hlists field v child).
Qed.

Lemma registered_keeps_tablename (table : gmap string string)
    (data_class other : decl) (cs : classes) (t : string) :
  tablename_of cs other = Some t →
  tablename_of (registered table data_class cs) other = Some t.
Proof.
  intros Ht. destruct (registered_split table data_class cs) as (_ & _ & _ & Hn).
  unfold tablename_of in *. rewrite Hn.
  destruct (d_tablename other) as [own|]; [exact Ht|].
  destruct (d_tablename data_class) as [own|]; [exact Ht|].
  destruct (tablenames cs !! d_name data_class) as [t0|] eqn:H0; [exact Ht|].
  rewrite lookup_insert_ne; [exact Ht|]. intros Heq. rewrite Heq in H0. congruence.
Qed.

Lemma registered_tablename (table : gmap string string) (data_class : decl)
    (cs : classes) :
  tablename_of (registered table data_class cs) data_class
  = Some (default (default_tablename (d_name data_class))
            (tablename_of cs data_class)).
Proof.
  destruct (registered_split table data_class cs) as (_ & _ & _ & Hn).
  unfold tablename_of in *. rewrite Hn.
  destruct (d_tablename data_class) as [own|]; [reflexivity|].
  destruct (tablenames cs !! d_name data_class) as [t0|] eqn:H0; simpl.
  - exact H0.
  - now rewrite lookup_insert_eq.
Qed.

End RegistrationLemmas.

Module RegistrationFacts.

Import Schema SchemaLemmas ColumnLemmas RegistrationLemmas.

Lemma registered_bucket (table : gmap string string) (data_class : decl)
    (cs : classes) (n : string) :
  n = d_name data_class ∨ buckets cs !! n = Some ∅ →
  buckets (registered table data_class cs) !! n = Some ∅.
Proof.
  destruct (registered_split table data_class cs) as (_ & -> & _ & _).
  destruct (decide (d_name data_class = n)) as [<-|Hne].
  - intros _. now rewrite lookup_insert_eq.
  - intros [->|H]; [contradiction|]. now rewrite lookup_insert_ne.
Qed.

Lemma registered_new_tablename (table : gmap string string)
    (data_class other : decl) (cs : classes) :
  tablename_of cs other = None →
  tablename_of (registered table data_class cs) other = None
  ∨ tablename_of (registered table data_class cs) other
    = Some (default_tablename (d_name other)).
Proof.
  intros Hnone. destruct (registered_split table data_class cs) as (_ & _ & _ & Hn).
  unfold tablename_of in *. rewrite Hn.
  destruct (d_tablename other) as [own|]; [discriminate|].
  destruct (d_tablename data_class) as [own|]; [now left|].
  destruct (tablenames cs !! d_name data_class) as [t0|]; [now left|].
  destruct (decide (d_name data_class = d_name other)) as [Heq|Hne].
  - right. now rewrite Heq, lookup_insert_eq.
  - left. now rewrite lookup_insert_ne.
Qed.

Lemma register_each_readable (table : gmap string string)
    (data_classes : list decl) (cs : classes) :
  all_readable table data_classes →
  ∃ cs', register_each table data_classes cs = (inl tt, cs')
    ∧ tables cs' = tables cs
    ∧ (∀ n, columns_of cs n `prefix_of` columns_of cs' n)
    ∧ (∀ n, buckets cs !! n = Some ∅ → buckets cs' !! n = Some ∅)
    ∧ (∀ d t, tablename_of cs d = Some t → tablename_of cs' d = Some t)
    ∧ (∀ d, d ∈ data_classes →
         buckets cs' !! d_name d = Some ∅
         ∧ tablename_of cs' d
           = Some (default (default_tablename (d_name d)) (tablename_of cs d))
         ∧ (∀ c, c ∈ omap (column_of table) (d_annotations d) →
                 c ∈ columns_of cs' (d_name d))
         ∧ (∀ field var_name child,
              field ∈ d_annotations d →
              list_field table field = Some (var_name, child) →
              list_id_column (d_name d) var_name ∈ columns_of cs' child
              ∧ list_order_column (d_name d) var_name ∈ columns_of cs' child)).
Proof.
  intros Hall. revert cs.
  induction Hall as [|d0 rest Hread _ IH]; intros cs.
  - exists cs. split; [reflexivity|]. split; [reflexivity|].
    split; [reflexivity|]. split; [tauto|]. split; [tauto|].
    intros d Hd. now apply elem_of_nil in Hd.
  - destruct (IH (registered table d0 cs))
      as (cs' & Hrun & Ht & Hprefix & Hbuckets & Hnames & Heach).
    exists cs'. simpl register_each.
    rewrite (register_one_readable _ _ _ Hread).
    split; [exact Hrun|].
    destruct (registered_split table d0 cs) as (Ht0 & _ & _ & _).
    split; [now rewrite Ht|].
    split; [intros n; etransitivity; [apply (registered_prefix table d0)|apply Hprefix]|].
    split; [intros n Hn; apply Hbuckets, registered_bucket; now right|].
    split; [intros d t Hd; apply Hnames, registered_keeps_tablename, Hd|].
    intros d Hd. apply elem_of_cons in Hd as [->|Hd].
    + split; [apply Hbuckets, registered_bucket; now left|].
      split; [apply Hnames, registered_tablename|].
      split.
      * intros c Hc. eapply elem_of_prefix; [|apply Hprefix].
        now apply registered_own.
      * intros field v child Hin Hlist.
        destruct (registered_lists table d0 cs field v child Hin Hlist) as [Hid Horder].
        split; (eapply elem_of_prefix; [|apply Hprefix]); assumption.
    + destruct (Heach d Hd) as (Hb & Hn & Hown & Hlists).
      split; [exact Hb|]. split; [|split; [exact Hown|exact Hlists]].
      rewrite Hn. f_equal.
      destruct (tablename_of cs d) as [t|] eqn:Hcs.
      * now rewrite (registered_keeps_tablename table d0 d cs t Hcs).
      * destruct (registered_new_tablename table d0 d cs Hcs) as [->| ->]; reflexivity.
Qed.

(** X22: on classes whose annotations [MakeColumns] can read,
    [RegisterTables] does not fail and remembers the classes as the
    store's tables.  Afterwards every registered class has an empty bucket
    in the cache, whatever the bucket held before; its table name is the
    one it had, or else its name in lower case followed by [_table]; its
    columns contain the columns derived from its fields; the element class
    of each of its list fields has the list's two columns; and the columns
    any class had before are still there, in front. *)
Theorem RegisterTables_registers (table : gmap string string)
    (data_classes : list decl) (cs : classes)
    (Hread : all_readable table data_classes) :
  ∃ cs', RegisterTables table data_classes cs = (inl tt, cs')
    ∧ tables cs' = data_classes
    ∧ (∀ n, columns_of cs n `prefix_of` columns_of cs' n)
    ∧ (∀ d, d ∈ data_classes →
         buckets cs' !! d_name d = Some ∅
         ∧ tablename_of cs' d
           = Some (default (lower (d_name d) +:+ "_table") (tablename_of cs d))
         ∧ (∀ c, c ∈ omap (column_of table) (d_annotations d) →
                 c ∈ columns_of cs' (d_name d))
         ∧ (∀ field var_name child,
              field ∈ d_annotations d →
              list_field table field = Some (var_name, child) →
              list_id_column (d_name d) var_name ∈ columns_of cs' child
              ∧ list_order_column (d_name d) var_name ∈ columns_of cs' child)).
Proof.
  destruct (register_each_readable table data_classes
              (set_tables data_classes cs) Hread)
    as (cs' & Hrun & Ht & Hprefix & _ & _ & Heach).
  exists cs'. split; [exact Hrun|]. split; [exact Ht|].
  split; [exact Hprefix|exact Heach].
Qed.

Lemma RegisterTables_registers_witness :
  let person :=
    {| d_name := "Person";
       d_annotations :=
         [("name", PyClass "str" None);
          ("pets", PyAlias (Some ("List", None)) ["Pet"]);
          ("age", PyClass "int" None)];
       d_tablename := None |} in
  let pet :=
    {| d_name := "Pet";
       d_annotations :=
         [("name", PyClass "str" None);
          ("owner", PyAlias (Some ("Reference", Some "integer")) ["Person"])];
       d_tablename := Some "pets" |} in
  ∃ cs', RegisterTables TYPE_TABLE [person; pet] empty_classes = (inl tt, cs')
    ∧ tables cs' = [person; pet]
    ∧ (∀ n, columns_of empty_classes n `prefix_of` columns_of cs' n)
    ∧ (∀ d, d ∈ [person; pet] →
         buckets cs' !! d_name d = Some ∅
         ∧ tablename_of cs' d
           = Some (default (lower (d_name d) +:+ "_table")
                     (tablename_of empty_classes d))
         ∧ (∀ c, c ∈ omap (column_of TYPE_TABLE) (d_annotations d) →
                 c ∈ columns_of cs' (d_name d))
         ∧ (∀ field var_name child,
              field ∈ d_annotations d →
              list_field TYPE_TABLE field = Some (var_name, child) →
              list_id_column (d_name d) var_name ∈ columns_of cs' child
              ∧ list_order_column (d_name d) var_name ∈ columns_of cs' child)).
Proof.
  intros person pet.
  apply (RegisterTables_registers TYPE_TABLE [person; pet] empty_classes).
  unfold all_readable, person, pet.
  repeat (apply Forall_cons_2; [simpl|]); try apply Forall_nil_2; try exact I.
  - left. now exists "text".
  - left. now exists "integer".
  - left. now exists "text".
Defined.

(** X23: [RegisterTables] is not idempotent.  Registering a class a second
    time keeps the columns the first registration left and appends the
    columns derived from its fields once more, so that they are listed
    twice. *)
Theorem RegisterTables_again_repeats_columns (table : gmap string string)
    (data_class : decl) (cs cs1 : classes)
    (Hread : Forall (fun field => readable table (snd field))
               (d_annotations data_class))
    (Hfirst : RegisterTables table [data_class] cs = (inl tt, cs1)) :
  ∃ cs2, RegisterTables table [data_class] cs1 = (inl tt, cs2)
    ∧ omap (column_of table) (d_annotations data_class)
      `suffix_of` columns_of cs1 (d_name data_class)
    ∧ columns_of cs2 (d_name data_class)
      = columns_of cs1 (d_name data_class)
        ++ omap (column_of table) (d_annotations data_class).
Proof.
  assert (Hrun : ∀ cs0, RegisterTables table [data_class] cs0
                        = (inl tt, registered table data_class
                                     (set_tables [data_class] cs0))).
  { intros cs0. unfold RegisterTables. simpl register_each.
    now rewrite (register_one_readable _ _ _ Hread). }
  rewrite Hrun in Hfirst. injection Hfirst as <-.
  eexists. split; [apply Hrun|]. split.
  - rewrite registered_columns. simpl. rewrite decide_True by reflexivity.
    now apply suffix_app_r.
  - rewrite registered_again; [reflexivity| |].
    + destruct (registered_split table data_class (set_tables [data_class] cs))
        as (_ & _ & Hc & _).
      simpl. rewrite Hc. simpl. rewrite lookup_insert_eq. now eexists.
    + intros field v child Hin Hlist.
      exact (registered_lists table data_class (set_tables [data_class] cs)
               field v child Hin Hlist).
Qed.

Lemma RegisterTables_again_repeats_columns_witness :
  let person :=
    {| d_name := "Person";
       d_annotations :=
         [("name", PyClass "str" None);
          ("friends", PyAlias (Some ("List", None)) ["Person"]);
          ("age", PyClass "int" None)];
       d_tablename := None |} in
  let cs1 := snd (RegisterTables TYPE_TABLE [person] empty_classes) in
  ∃ cs2, RegisterTables TYPE_TABLE [person] cs1 = (inl tt, cs2)
    ∧ omap (column_of TYPE_TABLE) (d_annotations person)
      `suffix_of` columns_of cs1 (d_name person)
    ∧ columns_of cs2 (d_name person)
      = columns_of cs1 (d_name person)
        ++ omap (column_of TYPE_TABLE) (d_annotations person).
Proof.
  intros person cs1.
  apply (RegisterTables_again_repeats_columns TYPE_TABLE person empty_classes cs1).
  - unfold person. simpl.
    repeat (apply Forall_cons_2; [simpl|]); try apply Forall_nil_2; try exact I.
    + left. now exists "text".
    + left. now exists "integer".
  - vm_compute. reflexivity.
Defined.

End RegistrationFacts.
